(** * Forked state database of qilin (fork-database/src/forked_db.rs)

    A shallow embedding of [ForkedDatabase], its snapshot registry
    [Snapshots<T>] and the [ForkDbSnapshot] read view.

    - U256 values are [Z] in [0, 2^256 - 1]; [ops::Add] on [ethers::U256]
      panics on overflow, [saturating_add] clamps at the maximum.
    - Rust [HashMap]s are stdpp [gmap]s; [clear] and [extend] are written
      out.
    - A panic is [None] in the [option] result of the operation that may
      panic.
    - [CacheDB] and its [Database]/[DatabaseRef]/[DatabaseCommit]
      implementations come from the revm crate (version 3) and are
      transcribed from it.
    - [SharedBackend], [BlockchainDb] and [set_pinned_block] are modules of
      this repository that are not among the sources; they are modelled
      from the spec (see the doc comments starting "Modelled from the
      spec"). The network is a set of fetch functions, section variables. *)

From Stdlib Require Import ZArith Lia List String Sorted Orders Mergesort.
From stdpp Require Import base gmap list relations.
Import ListNotations.
Open Scope Z_scope.

(** ** U256 arithmetic *)

Definition U256_MAX : Z := 2 ^ 256 - 1.

(** [U256::saturating_add]. *)
Definition saturating_add (x y : Z) : Z := Z.min (x + y) U256_MAX.

(** [impl Add for U256] (uint crate): panics with "arithmetic operation
    overflow" when the sum exceeds [U256::MAX]; [None] is the panic. *)
Definition u256_add (x y : Z) : option Z :=
  if x + y <=? U256_MAX then Some (x + y) else None.

(** ** The snapshot registry [Snapshots<T>] *)

Section SnapshotRegistry.

Context {T : Type}.

(** [struct Snapshots<T> { id: U256, snapshots: Map<U256, T> }]. *)
Record Snapshots := mkSnapshots {
  id_counter : Z;              (* field [id] *)
  snapshots_map : gmap Z T     (* field [snapshots] *)
}.

(** [impl Default for Snapshots<T>]. *)
Definition snapshots_default : Snapshots := mkSnapshots 0 ∅.

(** [fn next_id(&mut self) -> U256]. *)
Definition next_id (s : Snapshots) : Z * Snapshots :=
  let id := id_counter s in
  (id, mkSnapshots (saturating_add id 1) (snapshots_map s)).

(** [fn get(&self, id) -> Option<&T>]. *)
Definition get (s : Snapshots) (id : Z) : option T := snapshots_map s !! id.

(** The loop of [remove]:
    [while to_revert < self.id { self.snapshots.remove(&to_revert);
    to_revert = to_revert + 1; }]. The loop runs [self.id - to_revert]
    times, which is the fuel; the fuel is never exhausted while the loop
    condition holds (see [remove_loop_fuel_enough]). *)
Fixpoint remove_loop (fuel : nat) (self_id to_revert : Z) (m : gmap Z T)
    : option (gmap Z T) :=
  if to_revert <? self_id then
    match fuel with
    | O => Some m
    | S fuel' =>
        let m' := delete to_revert m in
        match u256_add to_revert 1 with
        | None => None
        | Some next => remove_loop fuel' self_id next m'
        end
    end
  else Some m.

(** [fn remove(&mut self, id: U256) -> Option<T>]; [None] is a panic,
    [Some (snapshot, self')] the returned value and the new registry. *)
Definition remove (s : Snapshots) (id : Z) : option (option T * Snapshots) :=
  let snapshot := snapshots_map s !! id in
  let m := delete id (snapshots_map s) in
  match u256_add id 1 with
  | None => None
  | Some to_revert =>
      match remove_loop (Z.to_nat (id_counter s - to_revert)) (id_counter s) to_revert m with
      | None => None
      | Some m' => Some (snapshot, mkSnapshots (id_counter s) m')
      end
  end.

(** [fn insert(&mut self, snapshot: T) -> U256]. *)
Definition insert (s : Snapshots) (snapshot : T) : Z * Snapshots :=
  let (id, s1) := next_id s in
  (id, mkSnapshots (id_counter s1) (<[id := snapshot]> (snapshots_map s1))).

End SnapshotRegistry.

Arguments Snapshots : clear implicits.

(** ** Primitive data (revm primitives) *)

(** [Bytecode]: the raw bytes of a contract. *)
Definition Bytecode := list Z.

(** [AccountInfo { balance, nonce, code_hash, code }]. *)
Record AccountInfo := mkAccountInfo {
  balance : Z;
  nonce : Z;
  code_hash : Z;
  code : option Bytecode
}.

(** [KECCAK_EMPTY], the hash of the empty bytecode. *)
Definition KECCAK_EMPTY : Z :=
  0xc5d2460186f7233c927e7db2dcc703c0e500b653ca82273b7bfad8045d85a470.

(** [AccountInfo::default()]. *)
Definition account_info_default : AccountInfo :=
  mkAccountInfo 0 0 KECCAK_EMPTY (Some []).

(** [StorageSlot { original_value, present_value }]. *)
Record StorageSlot := mkStorageSlot {
  original_value : Z;
  present_value : Z
}.

(** [Account]: the post-execution state of an account handed to [commit]
    (revm 3: [info], [storage], [storage_cleared], [is_destroyed]; the
    [is_touched] and [is_not_existing] flags are not read by [commit]). *)
Record Account := mkAccount {
  acc_info : AccountInfo;
  acc_storage : gmap Z StorageSlot;
  storage_cleared : bool;
  is_destroyed : bool
}.

(** [revm::db::AccountState]. *)
Inductive AccountState := NotExisting | Touched | StorageCleared | AS_None.

Definition is_storage_cleared (st : AccountState) : bool :=
  match st with StorageCleared => true | _ => false end.

(** [DbAccount { info, account_state, storage }]. *)
Record DbAccount := mkDbAccount {
  info : AccountInfo;
  account_state : AccountState;
  storage : gmap Z Z
}.

(** [DbAccount::default()]. *)
Definition db_account_default : DbAccount :=
  mkDbAccount account_info_default AS_None ∅.

(** [DbAccount::new_not_existing()]. *)
Definition new_not_existing : DbAccount :=
  mkDbAccount account_info_default NotExisting ∅.

(** [DbAccount::info()]: [None] for a non-existing account. *)
Definition db_account_info (a : DbAccount) : option AccountInfo :=
  match account_state a with
  | NotExisting => None
  | _ => Some (info a)
  end.

(** [impl From<Option<AccountInfo>> for DbAccount]. *)
Definition db_account_from (o : option AccountInfo) : DbAccount :=
  match o with
  | Some i => mkDbAccount i AS_None ∅
  | None => new_not_existing
  end.

(** Rust's [Result<A, E>]. *)
Inductive result (A E : Type) := Ok (a : A) | Err (e : E).
Arguments Ok {A E} a.
Arguments Err {A E} e.

(** [DatabaseError] of the fork backend: transport failures of the
    remote source. *)
Inductive DatabaseError := TransportError (msg : string).

(** [HashMap::clear] and [HashMap::extend] (later entries win). *)
Definition map_clear {V} (m : gmap Z V) : gmap Z V := ∅.
Definition map_extend {V} (m src : gmap Z V) : gmap Z V := src ∪ m.

(** ** The remote cache ([MemDb] inside [BlockchainDb]) *)

(** Modelled from the spec: the [BlockchainDb] module is not among the
    sources. RemoteCache "holds three independent mappings: accounts,
    storage (Address × StorageKey → StorageValue), and block hashes". *)
Record RemoteCache := mkRemoteCache {
  rc_accounts : gmap Z AccountInfo;
  rc_storage : gmap Z (gmap Z Z);
  rc_block_hashes : gmap Z Z
}.

(** Modelled from the spec: [BlockchainDb::db().clear()], "clears
    RemoteCache entirely". *)
Definition remote_cache_clear (rc : RemoteCache) : RemoteCache :=
  mkRemoteCache (map_clear (rc_accounts rc)) (map_clear (rc_storage rc))
    (map_clear (rc_block_hashes rc)).

(** [StateSnapshot { accounts, storage, block_hashes }]. *)
Record StateSnapshot := mkStateSnapshot {
  ss_accounts : gmap Z AccountInfo;
  ss_storage : gmap Z (gmap Z Z);
  ss_block_hashes : gmap Z Z
}.

(** [CacheDB<SharedBackend>]: the local overlay. Its [db] field, the
    backend handle, is shared by every clone and is the [Backend]
    environment below; [logs] is not read by any operation here. *)
Record CacheDB := mkCacheDB {
  accounts : gmap Z DbAccount;
  contracts : gmap Z Bytecode;
  block_hashes : gmap Z Z
}.

(** [CacheDB::new(db)]. *)
Definition cache_db_new : CacheDB :=
  mkCacheDB ∅ (<[0 := []]> (<[KECCAK_EMPTY := []]> ∅)) ∅.

(** [ForkDbSnapshot { local, snapshot }]. *)
Record ForkDbSnapshot := mkForkDbSnapshot {
  local : CacheDB;
  snapshot : StateSnapshot
}.

(** The error of [set_pinned_block], an [eyre::Report] carrying its
    message. *)
Inductive PinError := mkPinError (msg : string).

(** [err.to_string()]. *)
Definition pin_error_to_string (e : PinError) : string :=
  match e with mkPinError m => m end.

(** Modelled from the spec: the environment of the database. The
    [SharedBackend] module is not among the sources; its collaborator
    contract (spec section 6) is [get_account], [get_storage], [get_code],
    [get_block_hash] against a pinned block and [set_pinned_block]. The
    remaining field is [Bytecode::hash] (keccak) of revm. *)
Record Env (BlockId : Type) := mkEnv {
  get_account : BlockId -> Z -> result AccountInfo DatabaseError;
  get_storage : BlockId -> Z -> Z -> result Z DatabaseError;
  get_code : BlockId -> Z -> result Bytecode DatabaseError;
  get_block_hash : BlockId -> Z -> result Z DatabaseError;
  set_pinned_block : BlockId -> result unit PinError;
  bytecode_hash : Bytecode -> Z
}.
Arguments get_account {BlockId} e _ _.
Arguments get_storage {BlockId} e _ _ _.
Arguments get_code {BlockId} e _ _.
Arguments get_block_hash {BlockId} e _ _.
Arguments set_pinned_block {BlockId} e _.
Arguments bytecode_hash {BlockId} e _.

Section Database.

Context {BlockId : Type}.
Variable E : Env BlockId.

(** ** [SharedBackend as DatabaseRef] *)

(** Modelled from the spec: [SharedBackend::basic]. Answers from the
    RemoteCache; on a miss fetches the account at the pinned block and
    records it in the RemoteCache. It never answers [None] ("if truly
    absent upstream, RemoteStateSource still returns a (possibly
    empty/default) record"); a transport error is propagated. *)
Definition sb_basic (p : BlockId) (rc : RemoteCache) (a : Z)
    : result (option AccountInfo) DatabaseError * RemoteCache :=
  match rc_accounts rc !! a with
  | Some i => (Ok (Some i), rc)
  | None =>
      match get_account E p a with
      | Ok i => (Ok (Some i),
                 mkRemoteCache (<[a := i]> (rc_accounts rc)) (rc_storage rc)
                   (rc_block_hashes rc))
      | Err e => (Err e, rc)
      end
  end.

(** Modelled from the spec: [SharedBackend::storage], same pattern per
    slot. *)
Definition sb_storage (p : BlockId) (rc : RemoteCache) (a i : Z)
    : result Z DatabaseError * RemoteCache :=
  match rc_storage rc !! a ≫= (fun st => st !! i) with
  | Some v => (Ok v, rc)
  | None =>
      match get_storage E p a i with
      | Ok v =>
          let st := from_option (fun st => st) ∅ (rc_storage rc !! a) in
          (Ok v, mkRemoteCache (rc_accounts rc) (<[a := <[i := v]> st]> (rc_storage rc))
                   (rc_block_hashes rc))
      | Err e => (Err e, rc)
      end
  end.

(** Modelled from the spec: [SharedBackend::block_hash]. *)
Definition sb_block_hash (p : BlockId) (rc : RemoteCache) (n : Z)
    : result Z DatabaseError * RemoteCache :=
  match rc_block_hashes rc !! n with
  | Some h => (Ok h, rc)
  | None =>
      match get_block_hash E p n with
      | Ok h => (Ok h, mkRemoteCache (rc_accounts rc) (rc_storage rc)
                         (<[n := h]> (rc_block_hashes rc)))
      | Err e => (Err e, rc)
      end
  end.

(** Modelled from the spec: [SharedBackend::code_by_hash] ("get_code");
    the RemoteCache has no code map. *)
Definition sb_code_by_hash (p : BlockId) (rc : RemoteCache) (h : Z)
    : result Bytecode DatabaseError * RemoteCache :=
  (get_code E p h, rc).

(** ** [impl Database for CacheDB] (revm): fetch and cache on a miss *)

Definition cache_db_basic (p : BlockId) (c : CacheDB) (rc : RemoteCache) (a : Z)
    : result (option AccountInfo) DatabaseError * CacheDB * RemoteCache :=
  match accounts c !! a with
  | Some acc => (Ok (db_account_info acc), c, rc)
  | None =>
      match sb_basic p rc a with
      | (Ok oi, rc') =>
          let acc := db_account_from oi in
          (Ok (db_account_info acc),
           mkCacheDB (<[a := acc]> (accounts c)) (contracts c) (block_hashes c), rc')
      | (Err e, rc') => (Err e, c, rc')
      end
  end.

Definition cache_db_code_by_hash (p : BlockId) (c : CacheDB) (rc : RemoteCache) (h : Z)
    : result Bytecode DatabaseError * CacheDB * RemoteCache :=
  match contracts c !! h with
  | Some b => (Ok b, c, rc)
  | None =>
      match sb_code_by_hash p rc h with
      | (Ok b, rc') =>
          (Ok b, mkCacheDB (accounts c) (<[h := b]> (contracts c)) (block_hashes c), rc')
      | (Err e, rc') => (Err e, c, rc')
      end
  end.

Definition cache_db_storage (p : BlockId) (c : CacheDB) (rc : RemoteCache) (a i : Z)
    : result Z DatabaseError * CacheDB * RemoteCache :=
  match accounts c !! a with
  | Some acc =>
      match storage acc !! i with
      | Some v => (Ok v, c, rc)
      | None =>
          match account_state acc with
          | StorageCleared | NotExisting => (Ok 0, c, rc)
          | _ =>
              match sb_storage p rc a i with
              | (Ok v, rc') =>
                  let acc' := mkDbAccount (info acc) (account_state acc)
                                (<[i := v]> (storage acc)) in
                  (Ok v, mkCacheDB (<[a := acc']> (accounts c)) (contracts c)
                           (block_hashes c), rc')
              | (Err e, rc') => (Err e, c, rc')
              end
          end
      end
  | None =>
      match sb_basic p rc a with
      | (Err e, rc1) => (Err e, c, rc1)
      | (Ok oi, rc1) =>
          match oi with
          | Some _ =>
              match sb_storage p rc1 a i with
              | (Err e, rc2) => (Err e, c, rc2)
              | (Ok v, rc2) =>
                  let acc0 := db_account_from oi in
                  let acc := mkDbAccount (info acc0) (account_state acc0)
                               (<[i := v]> (storage acc0)) in
                  (Ok v, mkCacheDB (<[a := acc]> (accounts c)) (contracts c)
                           (block_hashes c), rc2)
              end
          | None =>
              (Ok 0, mkCacheDB (<[a := db_account_from oi]> (accounts c)) (contracts c)
                       (block_hashes c), rc1)
          end
      end
  end.

Definition cache_db_block_hash (p : BlockId) (c : CacheDB) (rc : RemoteCache) (n : Z)
    : result Z DatabaseError * CacheDB * RemoteCache :=
  match block_hashes c !! n with
  | Some h => (Ok h, c, rc)
  | None =>
      match sb_block_hash p rc n with
      | (Ok h, rc') =>
          (Ok h, mkCacheDB (accounts c) (contracts c) (<[n := h]> (block_hashes c)), rc')
      | (Err e, rc') => (Err e, c, rc')
      end
  end.

(** ** [impl DatabaseRef for CacheDB] (revm): no local caching *)

Definition cache_db_basic_ref (p : BlockId) (c : CacheDB) (rc : RemoteCache) (a : Z)
    : result (option AccountInfo) DatabaseError * RemoteCache :=
  match accounts c !! a with
  | Some acc => (Ok (db_account_info acc), rc)
  | None => sb_basic p rc a
  end.

Definition cache_db_code_by_hash_ref (p : BlockId) (c : CacheDB) (rc : RemoteCache) (h : Z)
    : result Bytecode DatabaseError * RemoteCache :=
  match contracts c !! h with
  | Some b => (Ok b, rc)
  | None => sb_code_by_hash p rc h
  end.

Definition cache_db_storage_ref (p : BlockId) (c : CacheDB) (rc : RemoteCache) (a i : Z)
    : result Z DatabaseError * RemoteCache :=
  match accounts c !! a with
  | Some acc =>
      match storage acc !! i with
      | Some v => (Ok v, rc)
      | None =>
          match account_state acc with
          | StorageCleared | NotExisting => (Ok 0, rc)
          | _ => sb_storage p rc a i
          end
      end
  | None => sb_storage p rc a i
  end.

Definition cache_db_block_hash_ref (p : BlockId) (c : CacheDB) (rc : RemoteCache) (n : Z)
    : result Z DatabaseError * RemoteCache :=
  match block_hashes c !! n with
  | Some h => (Ok h, rc)
  | None => sb_block_hash p rc n
  end.

(** ** [impl DatabaseCommit for CacheDB] (revm) *)

(** [CacheDB::insert_contract]: a non-empty code gets its hash as
    [code_hash] and is recorded in [contracts]; a zero [code_hash] becomes
    [KECCAK_EMPTY]. *)
Definition insert_contract (c : CacheDB) (acc_i : AccountInfo) : AccountInfo * CacheDB :=
  let '(i1, c1) :=
    match code acc_i with
    | Some b =>
        match b with
        | [] => (acc_i, c)
        | _ :: _ =>
            let h := bytecode_hash E b in
            let contracts' :=
              match contracts c !! h with
              | Some _ => contracts c
              | None => <[h := b]> (contracts c)
              end in
            (mkAccountInfo (balance acc_i) (nonce acc_i) h (code acc_i),
             mkCacheDB (accounts c) contracts' (block_hashes c))
        end
    | None => (acc_i, c)
    end in
  if code_hash i1 =? 0
  then (mkAccountInfo (balance i1) (nonce i1) KECCAK_EMPTY (code i1), c1)
  else (i1, c1).

(** One iteration of the loop of [commit]. *)
Definition commit_account (c : CacheDB) (change : Z * Account) : CacheDB :=
  let '(address, account) := change in
  if is_destroyed account then
    let db_account := from_option (fun x => x) db_account_default (accounts c !! address) in
    mkCacheDB
      (<[address := mkDbAccount account_info_default NotExisting
                      (map_clear (storage db_account))]> (accounts c))
      (contracts c) (block_hashes c)
  else
    let '(info', c1) := insert_contract c (acc_info account) in
    let db_account := from_option (fun x => x) db_account_default (accounts c1 !! address) in
    let '(state', storage0) :=
      if storage_cleared account then (StorageCleared, map_clear (storage db_account))
      else if is_storage_cleared (account_state db_account)
      then (StorageCleared, storage db_account)
      else (Touched, storage db_account) in
    let storage' := map_extend storage0 (present_value <$> acc_storage account) in
    mkCacheDB (<[address := mkDbAccount info' state' storage']> (accounts c1))
      (contracts c1) (block_hashes c1).

(** [fn commit(&mut self, changes: Map<B160, Account>)], the changes in
    the iteration order of the map. *)
Definition cache_db_commit (c : CacheDB) (changes : list (Z * Account)) : CacheDB :=
  fold_left commit_account changes c.

(** ** [ForkedDatabase] *)

(** [struct ForkedDatabase { backend, cache_db, db, snapshots }]: the
    backend is represented by its pinned block, [db] by the RemoteCache
    it shares with the backend. *)
Record ForkedDatabase := mkForkedDatabase {
  pinned : BlockId;
  cache_db : CacheDB;
  db : RemoteCache;
  snapshots : Snapshots ForkDbSnapshot
}.

Definition with_cache (s : ForkedDatabase) (c : CacheDB) (rc : RemoteCache) : ForkedDatabase :=
  mkForkedDatabase (pinned s) c rc (snapshots s).

Definition with_remote (s : ForkedDatabase) (rc : RemoteCache) : ForkedDatabase :=
  mkForkedDatabase (pinned s) (cache_db s) rc (snapshots s).

(** [impl Database for ForkedDatabase]: delegation to [cache_db]. *)
Definition basic (s : ForkedDatabase) (a : Z) : result (option AccountInfo) DatabaseError * ForkedDatabase :=
  let '(r, c, rc) := cache_db_basic (pinned s) (cache_db s) (db s) a in (r, with_cache s c rc).

Definition code_by_hash (s : ForkedDatabase) (h : Z) : result Bytecode DatabaseError * ForkedDatabase :=
  let '(r, c, rc) := cache_db_code_by_hash (pinned s) (cache_db s) (db s) h in (r, with_cache s c rc).

Definition storage_mut (s : ForkedDatabase) (a i : Z) : result Z DatabaseError * ForkedDatabase :=
  let '(r, c, rc) := cache_db_storage (pinned s) (cache_db s) (db s) a i in (r, with_cache s c rc).

Definition block_hash (s : ForkedDatabase) (n : Z) : result Z DatabaseError * ForkedDatabase :=
  let '(r, c, rc) := cache_db_block_hash (pinned s) (cache_db s) (db s) n in (r, with_cache s c rc).

(** [impl DatabaseRef for ForkedDatabase]: delegation to [cache_db]; the
    backend may still record fetched data in the shared RemoteCache. *)
Definition basic_ref (s : ForkedDatabase) (a : Z) : result (option AccountInfo) DatabaseError * ForkedDatabase :=
  let '(r, rc) := cache_db_basic_ref (pinned s) (cache_db s) (db s) a in (r, with_remote s rc).

Definition code_by_hash_ref (s : ForkedDatabase) (h : Z) : result Bytecode DatabaseError * ForkedDatabase :=
  let '(r, rc) := cache_db_code_by_hash_ref (pinned s) (cache_db s) (db s) h in (r, with_remote s rc).

Definition storage_ref (s : ForkedDatabase) (a i : Z) : result Z DatabaseError * ForkedDatabase :=
  let '(r, rc) := cache_db_storage_ref (pinned s) (cache_db s) (db s) a i in (r, with_remote s rc).

Definition block_hash_ref (s : ForkedDatabase) (n : Z) : result Z DatabaseError * ForkedDatabase :=
  let '(r, rc) := cache_db_block_hash_ref (pinned s) (cache_db s) (db s) n in (r, with_remote s rc).

(** [impl DatabaseCommit for ForkedDatabase]:
    [self.database_mut().commit(changes)]. *)
Definition commit (s : ForkedDatabase) (changes : list (Z * Account)) : ForkedDatabase :=
  mkForkedDatabase (pinned s) (cache_db_commit (cache_db s) changes) (db s) (snapshots s).

(** [fn reset(&mut self, _url, block_number) -> Result<(), String>]. *)
Definition reset (s : ForkedDatabase) (block_number : BlockId) : result unit string * ForkedDatabase :=
  match set_pinned_block E block_number with
  | Err err => (Err (pin_error_to_string err), s)
  | Ok tt =>
      (Ok tt, mkForkedDatabase block_number cache_db_new (remote_cache_clear (db s))
                (snapshots s))
  end.

(** [fn create_snapshot(&self) -> ForkDbSnapshot]. *)
Definition create_snapshot (s : ForkedDatabase) : ForkDbSnapshot :=
  let rc := db s in
  mkForkDbSnapshot (cache_db s)
    (mkStateSnapshot (rc_accounts rc) (rc_storage rc) (rc_block_hashes rc)).

(** [fn insert_snapshot(&self) -> U256]. *)
Definition insert_snapshot (s : ForkedDatabase) : Z * ForkedDatabase :=
  let snapshot := create_snapshot s in
  let '(id, snaps') := insert (snapshots s) snapshot in
  (id, mkForkedDatabase (pinned s) (cache_db s) (db s) snaps').

(** [fn revert_snapshot(&mut self, id: U256) -> bool]; [None] is a panic
    inside [Snapshots::remove]. *)
Definition revert_snapshot (s : ForkedDatabase) (id : Z) : option (bool * ForkedDatabase) :=
  match remove (snapshots s) id with
  | None => None
  | Some (Some snap, snaps') =>
      let ss := snapshot snap in
      let rc := db s in
      let rc' := mkRemoteCache
                   (map_extend (map_clear (rc_accounts rc)) (ss_accounts ss))
                   (map_extend (map_clear (rc_storage rc)) (ss_storage ss))
                   (map_extend (map_clear (rc_block_hashes rc)) (ss_block_hashes ss)) in
      Some (true, mkForkedDatabase (pinned s) (local snap) rc' snaps')
  | Some (None, snaps') =>
      Some (false, mkForkedDatabase (pinned s) (cache_db s) (db s) snaps')
  end.

(** ** [impl DatabaseRef for ForkDbSnapshot] *)

(** [ForkDbSnapshot::get_storage]. *)
Definition fork_db_snapshot_get_storage (snap : ForkDbSnapshot) (a i : Z) : option Z :=
  accounts (local snap) !! a ≫= (fun account => storage account !! i).

(** [<ForkDbSnapshot as DatabaseRef>::storage]. *)
Definition fork_db_snapshot_storage (p : BlockId) (rc : RemoteCache) (snap : ForkDbSnapshot) (a i : Z)
    : result Z DatabaseError * RemoteCache :=
  match accounts (local snap) !! a with
  | Some account =>
      match storage account !! i with
      | Some entry => (Ok entry, rc)
      | None =>
          match fork_db_snapshot_get_storage snap a i with
          | None => cache_db_storage_ref p (local snap) rc a i
          | Some st => (Ok st, rc)
          end
      end
  | None =>
      match fork_db_snapshot_get_storage snap a i with
      | None => cache_db_storage_ref p (local snap) rc a i
      | Some st => (Ok st, rc)
      end
  end.

End Database.

(** ** Operation sequences on the registry *)

Section RegistryRuns.

Context {T : Type}.

(** A call on the registry: [insert] or [remove]. *)
Inductive RegistryOp := OpInsert (t : T) | OpRemove (id : Z).

(** Runs the calls in order, collecting the ids [insert] returns; [None]
    when a [remove] panics. *)
Fixpoint run_ops (ops : list RegistryOp) (s : Snapshots T) : option (list Z * Snapshots T) :=
  match ops with
  | [] => Some ([], s)
  | OpInsert t :: ops' =>
      let '(id, s1) := insert s t in
      match run_ops ops' s1 with
      | Some (ids, s2) => Some (id :: ids, s2)
      | None => None
      end
  | OpRemove id :: ops' =>
      match remove s id with
      | None => None
      | Some (_, s1) => run_ops ops' s1
      end
  end.

(** Every stored id is below the counter. *)
Definition ids_below (s : Snapshots T) : Prop :=
  forall k, is_Some (snapshots_map s !! k) -> k < id_counter s.

End RegistryRuns.

Arguments RegistryOp : clear implicits.

(** [ForkedDatabase::new(backend, db)]: a fresh overlay and an empty
    registry over the given backend (pinned block) and RemoteCache. *)
Definition forked_database_new {BlockId} (p : BlockId) (rc : RemoteCache) : ForkedDatabase :=
  mkForkedDatabase p cache_db_new rc snapshots_default.

(** ** Live operations after a capture *)

(** The operations on the live database that the spec calls commits and
    fetch-through reads, through both query interfaces. *)
Inductive live_step {BlockId} (E : Env BlockId) : ForkedDatabase -> ForkedDatabase -> Prop :=
  | step_commit s changes : live_step E s (commit E s changes)
  | step_basic s a : live_step E s (snd (basic E s a))
  | step_code_by_hash s h : live_step E s (snd (code_by_hash E s h))
  | step_storage s a i : live_step E s (snd (storage_mut E s a i))
  | step_block_hash s n : live_step E s (snd (block_hash E s n))
  | step_basic_ref s a : live_step E s (snd (basic_ref E s a))
  | step_code_by_hash_ref s h : live_step E s (snd (code_by_hash_ref E s h))
  | step_storage_ref s a i : live_step E s (snd (storage_ref E s a i))
  | step_block_hash_ref s n : live_step E s (snd (block_hash_ref E s n)).

(** A concrete environment: accounts fetch as [a] wei, slot [i] holds
    [i], block [n] hashes to [n], code is never found, only block 0 can
    be pinned. *)
Definition env0 : Env Z :=
  mkEnv Z (fun _ a => Ok (mkAccountInfo a 0 KECCAK_EMPTY None))
    (fun _ _ i => Ok i)
    (fun _ _ => Err (TransportError "missing code"%string))
    (fun _ n => Ok n)
    (fun b => if b =? 0 then Ok tt else Err (mkPinError "unknown block"%string))
    (fun b => Z.of_nat (length b) + 1).

Definition rc0 : RemoteCache := mkRemoteCache {[7 := mkAccountInfo 10 0 KECCAK_EMPTY None]} ∅ ∅.

(** A backend whose account fetches fail while its storage fetches
    succeed. *)
Definition env_account_down : Env Z :=
  mkEnv Z (fun _ _ => Err (TransportError "account fetch failed"%string))
    (fun _ _ i => Ok i)
    (fun _ _ => Err (TransportError "missing code"%string))
    (fun _ n => Ok n)
    (fun b => if b =? 0 then Ok tt else Err (mkPinError "unknown block"%string))
    (fun b => Z.of_nat (length b) + 1).

(** ** The rest of [impl DatabaseRef for ForkDbSnapshot] *)

Section SnapshotView.

Context {BlockId : Type}.
Variable E : Env BlockId.

(** [<ForkDbSnapshot as DatabaseRef>::basic]: the overlay's record as
    stored (its [info], without the [NotExisting] check of
    [DbAccount::info()]), then the captured accounts, then
    [self.local.basic(address)?]. *)
Definition fork_db_snapshot_basic (p : BlockId) (rc : RemoteCache) (snap : ForkDbSnapshot) (a : Z)
    : result (option AccountInfo) DatabaseError * RemoteCache :=
  match accounts (local snap) !! a with
  | Some account => (Ok (Some (info account)), rc)
  | None =>
      let acc := ss_accounts (snapshot snap) !! a in
      match acc with
      | None =>
          match cache_db_basic_ref E p (local snap) rc a with
          | (Ok acc', rc') => (Ok acc', rc')
          | (Err e, rc') => (Err e, rc')
          end
      | Some _ => (Ok acc, rc)
      end
  end.

(** [<ForkDbSnapshot as DatabaseRef>::block_hash]: the captured block
    hashes first, then [self.local.block_hash(number)]. *)
Definition fork_db_snapshot_block_hash (p : BlockId) (rc : RemoteCache) (snap : ForkDbSnapshot) (n : Z)
    : result Z DatabaseError * RemoteCache :=
  match ss_block_hashes (snapshot snap) !! n with
  | None => cache_db_block_hash_ref E p (local snap) rc n
  | Some block_hash => (Ok block_hash, rc)
  end.

End SnapshotView.

(** ** state_manager/state_diff.rs *)

(** Ascending order of [BTreeMap] keys. *)
Module ZLeBool <: Orders.TotalLeBool.
Definition t := Z.
Definition leb := Z.leb.
Theorem leb_total : forall a b, leb a b = true \/ leb b a = true.
Proof. intros a b. unfold leb. destruct (Z.leb_spec a b); [left|right; apply Z.leb_le]; auto; lia. Qed.
End ZLeBool.
Module ZSort := Mergesort.Sort ZLeBool.

(** A [BTreeMap<K, V>] is a finite map; [keys()] and [iter()] visit it in
    ascending key order. *)
Definition btree_keys {V} (m : gmap Z V) : list Z := ZSort.sort (elements (dom m)).
Definition btree_entries {V} (m : gmap Z V) : list (Z * V) :=
  omap (fun k => pair k <$> m !! k) (btree_keys m).

(** [ethers::types::Diff<T>] and [ChangedType<T> { from, to }]. *)
Inductive Diff (T : Type) := Same | Born (v : T) | Died (v : T) | Changed (from to : T).
Arguments Same {T}.
Arguments Born {T} v.
Arguments Died {T} v.
Arguments Changed {T} from to.

(** [AccountDiff { balance, nonce, code, storage }]; H256 and U256 values
    are integers (the [to_fixed_bytes] / [from] conversions are the
    big-endian identity). *)
Record AccountDiff := mkAccountDiff {
  ad_balance : Diff Z;
  ad_nonce : Diff Z;
  ad_code : Diff Bytecode;
  ad_storage : gmap Z (Diff Z)
}.

(** [BlockTrace]: only its [state_diff] is read. *)
Record BlockTrace := mkBlockTrace { bt_state_diff : option (gmap Z AccountDiff) }.

(** [ProviderError]. *)
Inductive ProviderError := mkProviderError (msg : string).

(** [get_from_txs]: [trace_result] is the answer of
    [client.trace_call_many(req, Some(block_num))]. Entries are merged in
    trace order; an address already present is left alone. *)
Definition merge_state_diffs (traces : list BlockTrace) : gmap Z AccountDiff :=
  fold_left
    (fun merged '(address, account_diff) =>
       match merged !! address with
       | None => <[address := account_diff]> merged
       | Some _ => merged
       end)
    (flat_map (fun bt => match bt_state_diff bt with
                         | Some sd => btree_entries sd
                         | None => []
                         end) traces)
    ∅.

Definition get_from_txs (trace_result : result (list BlockTrace) ProviderError)
    : option (gmap Z AccountDiff) :=
  match trace_result with
  | Err _ => None
  | Ok block_traces => Some (merge_state_diffs block_traces)
  end.

(** [crate::cfmm::pool::Pool]: the fields read here. *)
Record Pool := mkPool { pool_address : Z; token_0 : Z; token_1 : Z }.

(** [WETH_ADDRESS.parse::<H160>().unwrap()]. *)
Definition WETH_ADDRESS : Z := 0xC02aaA39b223FE8D0A0e5C4F27eAD9083C756Cc2.

Section PoolExtraction.

Context {RustyPool : Type}.
(** [pool.to_rp()]. *)
Variable to_rp : Pool -> RustyPool.
(** [TxHash::from(keccak256(abi::encode(&[Address(a), Uint(slot)])))],
    the storage key of [balanceOf[a]] for a mapping at [slot]. *)
Variable mapping_key : Z -> Z -> Z.

(** [TradablePool { pool, is_weth_input }]. *)
Record TradablePool := mkTradablePool { tp_pool : RustyPool; is_weth_input : bool }.

(** [state_diffs.keys().filter_map(|e| all_pools.get(e)...)]. *)
Definition touched_pools (state_diffs : gmap Z AccountDiff) (all_pools : gmap Z Pool) : list Pool :=
  omap (fun e => all_pools !! e) (btree_keys state_diffs).

(** The loop of [extract_sandwich_pools]; a [?] returns [None] from the
    whole function, [continue] skips the pool. *)
Fixpoint sandwich_loop (weth_state_diff : gmap Z (Diff Z)) (pools : list Pool)
    : option (list TradablePool) :=
  match pools with
  | [] => Some []
  | pool :: rest =>
      let storage_key := mapping_key (pool_address pool) 3 in
      match weth_state_diff !! storage_key with
      | None => None
      | Some (Changed from to) =>
          match sandwich_loop weth_state_diff rest with
          | None => None
          | Some tps => Some (mkTradablePool (to_rp pool) (from <? to) :: tps)
          end
      | Some _ => sandwich_loop weth_state_diff rest
      end
  end.

(** [fn extract_sandwich_pools(state_diffs, all_pools) -> Option<Vec<TradablePool>>]. *)
Definition extract_sandwich_pools (state_diffs : gmap Z AccountDiff) (all_pools : gmap Z Pool)
    : option (list TradablePool) :=
  let touched := touched_pools state_diffs all_pools in
  match state_diffs !! WETH_ADDRESS with
  | None => None
  | Some weth => sandwich_loop (ad_storage weth) touched
  end.

(** [slot_finder::slot_finder(provider, token, pool)]: the [balanceOf]
    mapping slot of a token, if found. *)
Variable slot_finder : Z -> Z -> option Z.
(** [DefaultHasher] over [token0] then [token1], [finish()]. *)
Variable pair_hash : Z -> Z -> Z.

(** [ArbPools = Vec<HashMap<Pool, Vec<Pool>>>]; each map built here holds
    one entry. *)
Definition ArbPools := list (list (Pool * list Pool)).

(** The loop of [extract_arb_pools]; [break] returns what was collected,
    a [?] returns [None]. [hash_pools] is keyed by
    [H160::from_low_u64_be(hash)], i.e. by the hash value. *)
Fixpoint arb_loop (state_diffs : gmap Z AccountDiff) (hash_pools : gmap Z (list Pool))
    (pools : list Pool) (buy0 buy1 : ArbPools) : option (ArbPools * ArbPools) :=
  match pools with
  | [] => Some (buy0, buy1)
  | pool :: rest =>
      let token0 := token_0 pool in
      let token1 := token_1 pool in
      match state_diffs !! token0 with
      | None => None
      | Some d0 =>
          let token0_state_diff := ad_storage d0 in
          match slot_finder token0 (pool_address pool) with
          | None => Some (buy0, buy1)
          | Some slot =>
              let storage_key := mapping_key (pool_address pool) slot in
              match token0_state_diff !! storage_key with
              | None => None
              | Some (Changed from to) =>
                  let storage_diff := from <? to in
                  let hash := pair_hash token0 token1 in
                  match hash_pools !! hash with
                  | None => None
                  | Some hp =>
                      let vec_pool :=
                        List.filter (fun p => negb (pool_address p =? pool_address pool)) hp in
                      let pool_map := [(pool, vec_pool)] in
                      if storage_diff
                      then arb_loop state_diffs hash_pools rest (buy0 ++ [pool_map]) buy1
                      else arb_loop state_diffs hash_pools rest buy0 (buy1 ++ [pool_map])
                  end
              | Some _ => Some (buy0, buy1)
              end
          end
      end
  end.

(** [async fn extract_arb_pools(provider, state_diffs, all_pools, hash_pools)]. *)
Definition extract_arb_pools (state_diffs : gmap Z AccountDiff) (all_pools : gmap Z Pool)
    (hash_pools : gmap Z (list Pool)) : option (ArbPools * ArbPools) :=
  arb_loop state_diffs hash_pools (touched_pools state_diffs all_pools) [] [].

(** The shape of an entry that [extract_arb_pools] pushes: the one pool
    of the map, a touched pool whose [token0] balance slot was found and
    [Changed] (upwards when [up] holds), with the pools of its pair in
    [hash_pools] other than itself. *)
Definition arb_entry (state_diffs : gmap Z AccountDiff) (hash_pools : gmap Z (list Pool))
    (touched : list Pool) (up : bool) (pool_map : list (Pool * list Pool)) : Prop :=
  exists pool slot from to hp,
    pool_map = [(pool, List.filter (fun p => negb (pool_address p =? pool_address pool)) hp)] /\
    pool ∈ touched /\
    slot_finder (token_0 pool) (pool_address pool) = Some slot /\
    (state_diffs !! token_0 pool ≫= fun d => ad_storage d !! mapping_key (pool_address pool) slot)
      = Some (Changed from to) /\
    (from <? to) = up /\
    hash_pools !! pair_hash (token_0 pool) (token_1 pool) = Some hp.
End PoolExtraction.

Arguments TradablePool : clear implicits.

(** [u64::MAX], the bound of [U256::as_u64]. *)
Definition U64_MAX : Z := 2 ^ 64 - 1.

Section ToCacheDb.

Context {BlockId : Type}.
Variable E : Env BlockId.
(** The provider calls of a future of [to_cache_db] at [block_num]:
    [get_transaction_count], [get_balance], [get_code]. *)
Variable get_transaction_count : Z -> result Z ProviderError.
Variable get_balance : Z -> result Z ProviderError.
Variable get_code_at : Z -> result Bytecode ProviderError.

(** The future pushed for one address: three awaited calls, each with
    [?]. *)
Definition fetch_account_state (addy : Z) : result (Z * Z * Bytecode) ProviderError :=
  match get_transaction_count addy with
  | Err e => Err e
  | Ok nonce =>
      match get_balance addy with
      | Err e => Err e
      | Ok balance =>
          match get_code_at addy with
          | Err e => Err e
          | Ok code => Ok (nonce, balance, code)
          end
      end
  end.

(** [AccountInfo::new(balance, nonce, Bytecode::new_raw(code))]. *)
Definition account_info_new (balance nonce : Z) (code : Bytecode) : AccountInfo :=
  mkAccountInfo balance nonce
    (match code with [] => KECCAK_EMPTY | _ => bytecode_hash E code end) (Some code).

(** [CacheDB::insert_account_info]. *)
Definition insert_account_info (c : CacheDB) (address : Z) (i : AccountInfo) : CacheDB :=
  let '(i', c1) := insert_contract E c i in
  let acc := from_option (fun x => x) db_account_default (accounts c1 !! address) in
  mkCacheDB (<[address := mkDbAccount i' (account_state acc) (storage acc)]> (accounts c1))
    (contracts c1) (block_hashes c1).

(** [CacheDB<EmptyDB>::insert_account_storage]: [load_account] then
    [storage.insert]; [EmptyDB::basic] answers [None], so a missing account
    is loaded as [DbAccount::new_not_existing()]. It never fails. *)
Definition insert_account_storage (c : CacheDB) (address slot value : Z) : CacheDB :=
  let acc := from_option (fun x => x) new_not_existing (accounts c !! address) in
  mkCacheDB (<[address := mkDbAccount (info acc) (account_state acc) (<[slot := value]> (storage acc))]>
               (accounts c))
    (contracts c) (block_hashes c).

(** The [for_each] over [acc_diff.storage]: [Changed] stores its
    [from], [Died] its value, [Born] and [Same] are skipped. *)
Definition insert_diff_storage (c : CacheDB) (address : Z) (st : gmap Z (Diff Z)) : CacheDB :=
  fold_left
    (fun c '(slot, storage_diff) =>
       match storage_diff with
       | Changed from _ => insert_account_storage c address slot from
       | Died v => insert_account_storage c address slot v
       | _ => c
       end)
    (btree_entries st) c.

(** The [while let Some(result) = futures.next().await] loop over the
    futures in completion order; [Some (Err e)] is [result?], [None] a
    panic of [nonce.as_u64()] on a nonce above [u64::MAX]. *)
Fixpoint to_cache_db_loop (completed : list (Z * AccountDiff)) (c : CacheDB)
    : option (result CacheDB ProviderError) :=
  match completed with
  | [] => Some (Ok c)
  | (address, acc_diff) :: rest =>
      match fetch_account_state address with
      | Err e => Some (Err e)
      | Ok (nonce, balance, code) =>
          if nonce <=? U64_MAX then
            let c1 := insert_account_info c address (account_info_new balance nonce code) in
            to_cache_db_loop rest (insert_diff_storage c1 address (ad_storage acc_diff))
          else None
      end
  end.

(** [async fn to_cache_db(state, block_num, provider)]; [completed] is the
    order in which the futures of [state.iter()] complete, a permutation
    of the entries of [state]. *)
Definition to_cache_db (completed : list (Z * AccountDiff)) : option (result CacheDB ProviderError) :=
  to_cache_db_loop completed cache_db_new.

End ToCacheDb.

(** The slot value [to_cache_db] stores for a storage diff. *)
Definition diff_slot_value (d : option (Diff Z)) : option Z :=
  match d with
  | Some (Changed from _) => Some from
  | Some (Died v) => Some v
  | _ => None
  end.

(** A registry with snapshots 0, 1, 2. *)
Definition three_snapshots : Snapshots unit :=
  snd (insert (snd (insert (snd (insert snapshots_default tt)) tt)) tt).

(** The first value recorded for a key in an association list. *)
Fixpoint assoc_lookup {V} (k : Z) (l : list (Z * V)) : option V :=
  match l with
  | [] => None
  | (k', v) :: rest => if k' =? k then Some v else assoc_lookup k rest
  end.

(** The account diff of the first trace whose state diff holds the
    address. *)
Fixpoint first_state_diff (traces : list BlockTrace) (a : Z) : option AccountDiff :=
  match traces with
  | [] => None
  | bt :: rest =>
      match bt_state_diff bt ≫= (fun sd => sd !! a) with
      | Some d => Some d
      | None => first_state_diff rest a
      end
  end.

(** ** Registry lemmas *)

Lemma remove_loop_lookup {T} (fuel : nat) (cnt t : Z) (m : gmap Z T) :
  (Z.to_nat (cnt - t) <= fuel)%nat -> cnt <= U256_MAX ->
  exists m', remove_loop fuel cnt t m = Some m' /\
    forall k, m' !! k = if decide (t <= k < cnt) then None else m !! k.
Proof.
  revert t m. induction fuel as [|fuel IH]; intros t m Hf Hc; simpl.
  - destruct (Z.ltb_spec t cnt); [lia|].
    exists m. split; [done|]. intros k. case_decide; [lia|done].
  - destruct (Z.ltb_spec t cnt) as [Hlt|Hge].
    + unfold u256_add. destruct (Z.leb_spec (t + 1) U256_MAX); [|lia].
      destruct (IH (t + 1) (delete t m)) as [m' [Hm' Hk]]; [lia|lia|].
      exists m'. split; [done|]. intros k. rewrite Hk.
      destruct (decide (k = t)) as [->|Hne].
      * rewrite lookup_delete_eq. case_decide; case_decide; done || lia.
      * rewrite lookup_delete_ne by congruence.
        case_decide; case_decide; done || lia.
    + exists m. split; [done|]. intros k. case_decide; [lia|done].
Qed.

(** [remove] at an id below [U256::MAX]: the id and every id up to the
    counter are deleted, the rest is kept, the counter is unchanged. *)
Lemma remove_lookup {T} (s : Snapshots T) (id : Z) :
  id < U256_MAX -> id_counter s <= U256_MAX ->
  exists m', remove s id = Some (snapshots_map s !! id, mkSnapshots (id_counter s) m') /\
    forall k, m' !! k = if decide (k = id \/ id < k < id_counter s) then None
                         else snapshots_map s !! k.
Proof.
  intros Hid Hc. unfold remove.
  unfold u256_add at 1. destruct (Z.leb_spec (id + 1) U256_MAX); [|lia].
  destruct (remove_loop_lookup (Z.to_nat (id_counter s - (id + 1))) (id_counter s) (id + 1)
              (delete id (snapshots_map s))) as [m' [Hm' Hk]]; [lia|done|].
  rewrite Hm'. exists m'. split; [done|]. intros k. rewrite Hk.
  destruct (decide (k = id)) as [->|Hne].
  - rewrite lookup_delete_eq. case_decide; case_decide; done || lia.
  - rewrite lookup_delete_ne by congruence. case_decide; case_decide; done || lia.
Qed.

(** [remove(U256::MAX)] panics on [id + 1], whatever the registry. *)
Lemma remove_max_panics {T} (s : Snapshots T) : remove s U256_MAX = None.
Proof.
  unfold remove, u256_add. destruct (Z.leb_spec (U256_MAX + 1) U256_MAX); [lia|done].
Qed.

Lemma insert_counter {T} (s : Snapshots T) (t : T) :
  insert s t = (id_counter s,
                mkSnapshots (saturating_add (id_counter s) 1) (<[id_counter s := t]> (snapshots_map s))).
Proof. reflexivity. Qed.

Lemma remove_counter {T} (s s1 : Snapshots T) (id : Z) (o : option T) :
  remove s id = Some (o, s1) -> id_counter s1 = id_counter s.
Proof.
  unfold remove. destruct (u256_add id 1); [|done].
  destruct remove_loop; [|done]. intros H; injection H as <- <-. done.
Qed.

(** The ids of a run: the [k]-th insert returns [min (c + k) U256::MAX]
    for the counter [c] at the start. *)
Lemma run_ops_ids {T} (ops : list (RegistryOp T)) (s s' : Snapshots T) (ids : list Z) :
  0 <= id_counter s <= U256_MAX -> run_ops ops s = Some (ids, s') ->
  ids = map (fun k => Z.min (id_counter s + Z.of_nat k) U256_MAX) (seq 0 (length ids)).
Proof.
  revert s ids. induction ops as [|op ops IH]; intros s ids Hc Hrun; cbn -[saturating_add remove] in Hrun.
  - injection Hrun as <- <-. done.
  - destruct op as [t|id].
    +
      destruct (run_ops ops _) as [[ids1 s2]|] eqn:Hr; [|done].
      injection Hrun as <- <-.
      apply IH in Hr; simpl in Hr |- *; [|unfold saturating_add; lia].
      f_equal; [lia|]. rewrite Hr at 1. rewrite <- seq_shift, map_map.
      apply map_ext. intros k. unfold saturating_add. lia.
    + destruct (remove s id) as [[o s1]|] eqn:Hrem; [|done].
      apply remove_counter in Hrem. apply IH in Hrun; [|lia]. rewrite Hrem in Hrun. exact Hrun.
Qed.

Lemma run_inserts {T} (n : nat) (t : T) (s : Snapshots T) :
  exists ids s', run_ops (repeat (OpInsert t) n) s = Some (ids, s') /\ length ids = n.
Proof.
  revert s. induction n as [|n IH]; intros s; simpl.
  - by exists [], s.
  - destruct (IH (mkSnapshots (saturating_add (id_counter s) 1)
                    (<[id_counter s := t]> (snapshots_map s)))) as (ids & s' & Hr & Hl).
    exists (id_counter s :: ids), s'. unfold insert; simpl. rewrite Hr. simpl. auto.
Qed.

Lemma StronglySorted_app_r {A} (R : A -> A -> Prop) (l1 l2 : list A) :
  StronglySorted R (l1 ++ l2) -> StronglySorted R l2.
Proof.
  induction l1 as [|x l1 IH]; simpl; [done|]. intros H. apply StronglySorted_inv in H. tauto.
Qed.

(** Two inserts past [2^256 - 1] repeat an id. *)
Lemma saturated_ids_not_sorted (N : nat) :
  Z.of_nat N = U256_MAX ->
  ~ StronglySorted Z.lt (map (fun k => Z.min (Z.of_nat k) U256_MAX) (seq 0 (N + 2))).
Proof.
  intros HN Hs. rewrite seq_app, map_app in Hs. apply StronglySorted_app_r in Hs.
  simpl in Hs. apply StronglySorted_inv in Hs as [_ Hall].
  inversion Hall as [|? ? Hlt]; subst. lia.
Qed.

(** ** Claim C5 *)

(** C5 (corrected): from a fresh registry, whatever removals are
    interleaved, the [k]-th insert returns [min k U256::MAX]: the first id
    is 0 and ids strictly increase without reuse up to [U256::MAX]; the
    counter saturates there (no wrap-around, and [insert] cannot panic),
    so every later insert returns [U256::MAX] again. *)
Theorem snapshot_ids_from_default {T} (ops : list (RegistryOp T)) (ids : list Z) (s' : Snapshots T) :
  run_ops ops snapshots_default = Some (ids, s') ->
  ids = map (fun k => Z.min (Z.of_nat k) U256_MAX) (seq 0 (length ids)).
Proof.
  intros Hrun. apply run_ops_ids in Hrun; [|unfold U256_MAX; simpl; lia].
  exact Hrun.
Qed.

Lemma snapshot_ids_from_default_witness :
  run_ops [OpInsert tt; OpInsert tt; OpRemove 0; OpInsert tt] snapshots_default
    = Some ([0; 1; 2], mkSnapshots 3 {[2 := tt]}) /\
  [0; 1; 2] = map (fun k => Z.min (Z.of_nat k) U256_MAX) (seq 0 (length [0; 1; 2])).
Proof.
  split; [vm_compute; reflexivity|].
  apply (snapshot_ids_from_default [OpInsert tt; OpInsert tt; OpRemove 0; OpInsert tt] _
           (mkSnapshots 3 {[2 := tt]})).
  vm_compute. reflexivity.
Defined.

(** C5 (counterexample): after [2^256] inserts into a fresh registry the
    next insert returns [U256::MAX] a second time, so the returned ids are
    not strictly increasing and an id is assigned twice. *)
Lemma snapshot_ids_reused_at_saturation :
  ~ (forall (ops : list (RegistryOp unit)) ids s',
       run_ops ops snapshots_default = Some (ids, s') -> StronglySorted Z.lt ids).
Proof.
  intros Hclaim.
  destruct (run_inserts (Z.to_nat U256_MAX + 2) tt snapshots_default) as (ids & s' & Hr & Hl).
  pose proof (Hclaim _ _ _ Hr) as Hs.
  apply snapshot_ids_from_default in Hr. rewrite Hr, Hl in Hs.
  revert Hs. apply saturated_ids_not_sorted. rewrite Z2Nat.id; [done|].
  unfold U256_MAX; simpl; lia.
Qed.

(** After [S n] inserts the counter is [min (c + S n) MAX] and the last
    one is stored at [min (c + n) MAX]. *)
Lemma run_inserts_last {T} (n : nat) (t : T) (s : Snapshots T) :
  0 <= id_counter s <= U256_MAX ->
  exists ids s', run_ops (repeat (OpInsert t) (S n)) s = Some (ids, s') /\
    id_counter s' = Z.min (id_counter s + Z.of_nat (S n)) U256_MAX /\
    snapshots_map s' !! Z.min (id_counter s + Z.of_nat n) U256_MAX = Some t.
Proof.
  revert s. induction n as [|n IH]; intros s Hc.
  - eexists _, _. split; [reflexivity|]. simpl. unfold saturating_add. split; [lia|].
    rewrite Z.add_0_r, Z.min_l by lia. apply lookup_insert_eq.
  - set (s1 := mkSnapshots (saturating_add (id_counter s) 1) (<[id_counter s := t]> (snapshots_map s))).
    destruct (IH s1) as (ids & s' & Hr & Hcnt & Hlk); [unfold s1, saturating_add; simpl; lia|].
    exists (id_counter s :: ids), s'.
    change (run_ops (repeat (OpInsert t) (S (S n))) s) with
      (let '(id, s2) := insert s t in
       match run_ops (repeat (OpInsert t) (S n)) s2 with
       | Some (ids, s3) => Some (id :: ids, s3) | None => None end).
    rewrite insert_counter. fold s1. rewrite Hr. split; [done|].
    unfold s1, saturating_add in Hcnt, Hlk; simpl in Hcnt, Hlk. split.
    + rewrite Hcnt. lia.
    + replace (Z.min (id_counter s + Z.of_nat (S n)) U256_MAX)
        with (Z.min (Z.min (id_counter s + 1) U256_MAX + Z.of_nat n) U256_MAX) by lia.
      exact Hlk.
Qed.

(** [remove] on a registry whose ids are below its counter deletes the id
    and every greater id, and keeps every smaller one. *)
Lemma remove_cascade {T} (s : Snapshots T) (id : Z) :
  id < U256_MAX -> id_counter s <= U256_MAX -> ids_below s ->
  exists s', remove s id = Some (get s id, s') /\ id_counter s' = id_counter s /\
    (forall k, id <= k -> get s' k = None) /\ (forall k, k < id -> get s' k = get s k).
Proof.
  intros Hid Hc Hb. destruct (remove_lookup s id Hid Hc) as [m' [Hr Hk]].
  exists (mkSnapshots (id_counter s) m'). split; [exact Hr|]. split; [done|]. unfold get; simpl.
  split; intros k Hle; rewrite Hk; case_decide; [done| |lia|done].
  destruct (snapshots_map s !! k) eqn:Hs; [|done].
  assert (k < id_counter s) by (apply Hb; rewrite Hs; eauto). lia.
Qed.

Lemma insert_ids_below {T} (s : Snapshots T) (t : T) :
  id_counter s < U256_MAX -> ids_below s -> ids_below (snd (insert s t)).
Proof.
  intros Hc Hb k. rewrite insert_counter; simpl. unfold saturating_add.
  rewrite lookup_insert. case_decide; [lia|]. intros Hk. specialize (Hb k Hk). lia.
Qed.

Lemma remove_ids_below {T} (s s' : Snapshots T) (id : Z) (o : option T) :
  id < U256_MAX -> id_counter s <= U256_MAX -> ids_below s ->
  remove s id = Some (o, s') -> ids_below s'.
Proof.
  intros Hid Hc Hb Hr. destruct (remove_lookup s id Hid Hc) as [m' [Hr' Hk]].
  rewrite Hr in Hr'. injection Hr' as _ ->. intros k; simpl. rewrite Hk.
  case_decide; [intros [? ?]; done|]. apply Hb.
Qed.

(** ** Database lemmas *)

Lemma revert_snapshot_cascade {BlockId} (s : @ForkedDatabase BlockId) (id : Z) :
  id < U256_MAX -> id_counter (snapshots s) <= U256_MAX -> ids_below (snapshots s) ->
  exists s', revert_snapshot s id = Some (bool_decide (is_Some (get (snapshots s) id)), s') /\
    id_counter (snapshots s') = id_counter (snapshots s) /\ ids_below (snapshots s') /\
    (forall k, id <= k -> get (snapshots s') k = None).
Proof.
  intros Hid Hc Hb.
  destruct (remove_cascade (snapshots s) id Hid Hc Hb) as (r' & Hr & Hcnt & Hge & _).
  assert (Hb' : ids_below r') by (eapply remove_ids_below; eauto).
  unfold revert_snapshot. rewrite Hr. destruct (get (snapshots s) id) as [snap|].
  - eexists. split; [reflexivity|]. simpl. auto.
  - eexists. split; [reflexivity|]. simpl. auto.
Qed.

(** Reverting a stored id below [U256::MAX] restores the overlay and the
    three RemoteCache maps of the snapshot and returns [true]. *)
Lemma revert_snapshot_restores {BlockId} (s : @ForkedDatabase BlockId) (id : Z)
    (snap : ForkDbSnapshot) :
  id < U256_MAX -> id_counter (snapshots s) <= U256_MAX -> get (snapshots s) id = Some snap ->
  exists reg', revert_snapshot s id =
    Some (true, mkForkedDatabase (pinned s) (local snap)
                  (mkRemoteCache (ss_accounts (snapshot snap)) (ss_storage (snapshot snap))
                     (ss_block_hashes (snapshot snap))) reg').
Proof.
  intros Hid Hc Hg. destruct (remove_lookup (snapshots s) id Hid Hc) as [m' [Hr _]].
  unfold get in Hg. unfold revert_snapshot. rewrite Hr, Hg.
  eexists. unfold map_extend, map_clear. rewrite !map_union_empty. reflexivity.
Qed.

(** A restored snapshot of [s0] gives back the overlay and RemoteCache
    of [s0]. *)
Lemma create_snapshot_restored {BlockId} (s0 : @ForkedDatabase BlockId) :
  local (create_snapshot s0) = cache_db s0 /\
  mkRemoteCache (ss_accounts (snapshot (create_snapshot s0))) (ss_storage (snapshot (create_snapshot s0)))
    (ss_block_hashes (snapshot (create_snapshot s0))) = db s0.
Proof. destruct s0 as [p c [ra rs rb] r]. done. Qed.

(** An account resident in the overlay or the RemoteCache resolves from
    the maps alone, whatever the pinned block. *)
Lemma basic_resident {BlockId} (E : Env BlockId) (s1 s2 : ForkedDatabase) (a : Z) :
  cache_db s1 = cache_db s2 -> db s1 = db s2 ->
  is_Some (accounts (cache_db s1) !! a) \/ is_Some (rc_accounts (db s1) !! a) ->
  fst (basic E s1 a) = fst (basic E s2 a).
Proof.
  intros Hc Hd Hres. unfold basic, cache_db_basic, sb_basic. rewrite <- Hc, <- Hd.
  destruct (accounts (cache_db s1) !! a) eqn:Ha; [done|].
  destruct Hres as [[? H]|[i Hi]]; [congruence|]. rewrite Hi. done.
Qed.

(** ** Claim C1 *)

(** C1 (code_bug): after three snapshots are inserted into a fresh
    database, [revert_snapshot(U256::MAX)] panics in [Snapshots::remove]
    (the unchecked [id + 1]) instead of removing that id and every greater
    one. *)
Theorem revert_snapshot_max_panics_after_inserts {BlockId} (p : BlockId)
    (rc : RemoteCache) :
  let s3 := snd (insert_snapshot (snd (insert_snapshot (snd (insert_snapshot
               (forked_database_new p rc)))))) in
  get (snapshots s3) 0 <> None /\ get (snapshots s3) 1 <> None /\ get (snapshots s3) 2 <> None /\
  revert_snapshot s3 U256_MAX = None.
Proof.
  simpl. split; [done|]. split; [done|]. split; [done|].
  unfold revert_snapshot. rewrite remove_max_panics. done.
Qed.

Lemma insert_snapshot_step {BlockId} (s : @ForkedDatabase BlockId) :
  0 <= id_counter (snapshots s) < U256_MAX -> ids_below (snapshots s) ->
  let s' := snd (insert_snapshot s) in
  fst (insert_snapshot s) = id_counter (snapshots s) /\
  id_counter (snapshots s') = id_counter (snapshots s) + 1 /\
  ids_below (snapshots s') /\
  get (snapshots s') (id_counter (snapshots s)) = Some (create_snapshot s) /\
  (forall k, k <> id_counter (snapshots s) -> get (snapshots s') k = get (snapshots s) k) /\
  cache_db s' = cache_db s /\ db s' = db s /\ pinned s' = pinned s.
Proof.
  intros Hc Hb. cbv zeta. unfold insert_snapshot. rewrite insert_counter. simpl.
  split; [done|]. split; [unfold saturating_add; lia|].
  split; [exact (insert_ids_below (snapshots s) (create_snapshot s) ltac:(lia) Hb)|].
  unfold get; simpl. split; [apply lookup_insert_eq|].
  split; [|done]. intros k Hk. apply lookup_insert_ne. congruence.
Qed.

(** The cascade on the timeline of the spec: with snapshots [T1 < T2 < T3]
    inserted (ids below [U256::MAX]), reverting to [T1] succeeds and
    afterwards reverting to [T2] or [T3] returns [false]. *)
Lemma revert_cascade_scenario {BlockId} (s : @ForkedDatabase BlockId) :
  0 <= id_counter (snapshots s) -> id_counter (snapshots s) + 3 <= U256_MAX ->
  ids_below (snapshots s) ->
  let s1 := snd (insert_snapshot s) in
  let s2 := snd (insert_snapshot s1) in
  let s3 := snd (insert_snapshot s2) in
  let t1 := fst (insert_snapshot s) in
  let t2 := fst (insert_snapshot s1) in
  let t3 := fst (insert_snapshot s2) in
  t1 < t2 < t3 /\
  exists s4, revert_snapshot s3 t1 = Some (true, s4) /\
    fst <$> revert_snapshot s4 t2 = Some false /\ fst <$> revert_snapshot s4 t3 = Some false.
Proof.
  intros H0 Hc Hb s1 s2 s3 t1 t2 t3.
  destruct (insert_snapshot_step s ltac:(lia) Hb) as (Ht1 & Hc1 & Hb1 & Hg1 & Ho1 & _).
  fold s1 in Hc1, Hb1, Hg1, Ho1.
  destruct (insert_snapshot_step s1 ltac:(lia) Hb1) as (Ht2 & Hc2 & Hb2 & _ & Ho2 & _).
  fold s2 in Hc2, Hb2, Ho2.
  destruct (insert_snapshot_step s2 ltac:(lia) Hb2) as (Ht3 & Hc3 & Hb3 & _ & Ho3 & _).
  fold s3 in Hc3, Hb3, Ho3.
  fold t1 in Ht1. fold t2 in Ht2. fold t3 in Ht3.
  split; [lia|].
  assert (Hg3 : get (snapshots s3) t1 = Some (create_snapshot s)).
  { rewrite Ho3, Ho2, Ht1; [exact Hg1|lia|lia]. }
  destruct (revert_snapshot_cascade s3 t1 ltac:(lia) ltac:(lia) Hb3)
    as (s4 & Hr4 & Hc4 & Hb4 & Hge4).
  rewrite Hg3 in Hr4. exists s4. split; [exact Hr4|].
  destruct (revert_snapshot_cascade s4 t2 ltac:(lia) ltac:(lia) Hb4) as (s5 & Hr5 & _).
  destruct (revert_snapshot_cascade s4 t3 ltac:(lia) ltac:(lia) Hb4) as (s6 & Hr6 & _).
  rewrite Hr5, Hr6, !Hge4 by lia. done.
Qed.

(** ** Claim C2 *)

(** C2 (code_bug): a registry whose counter has saturated stores a
    snapshot at [U256::MAX] (it is reached by [2^256] inserts from a fresh
    registry), and reverting that stored id panics in [Snapshots::remove]
    (the unchecked [id + 1]) instead of restoring it and returning
    [true]. *)
Theorem revert_snapshot_stored_max_panics {BlockId} (snap : ForkDbSnapshot) :
  exists ids reg,
    run_ops (repeat (OpInsert snap) (S (Z.to_nat U256_MAX))) snapshots_default = Some (ids, reg) /\
    get reg U256_MAX = Some snap /\
    forall (p : BlockId) c rc, revert_snapshot (mkForkedDatabase p c rc reg) U256_MAX = None.
Proof.
  destruct (run_inserts_last (Z.to_nat U256_MAX) snap snapshots_default)
    as (ids & reg & Hr & _ & Hlk); [unfold U256_MAX; simpl; lia|].
  exists ids, reg. split; [exact Hr|]. split.
  - unfold get. rewrite Z2Nat.id in Hlk by (unfold U256_MAX; simpl; lia).
    change (id_counter snapshots_default) with 0 in Hlk.
    rewrite Z.add_0_l, Z.min_l in Hlk by lia. exact Hlk.
  - intros p c rc. unfold revert_snapshot. cbn [snapshots forked_database_new]. rewrite remove_max_panics. done.
Qed.

(** ** Claim C3 *)

(** C3 (code_bug): on a fresh database, where no snapshot is stored,
    [revert_snapshot(U256::MAX)] panics in [Snapshots::remove] (the
    unchecked [id + 1]) instead of returning [false]. *)
Theorem revert_snapshot_unknown_max_panics {BlockId} (p : BlockId) (rc : RemoteCache) :
  get (snapshots (forked_database_new p rc)) U256_MAX = None /\
  revert_snapshot (forked_database_new p rc) U256_MAX = None.
Proof. split; [done|]. unfold revert_snapshot. cbn [snapshots forked_database_new]. rewrite remove_max_panics. done. Qed.

(** Below [U256::MAX], an unknown id leaves the overlay, the RemoteCache
    and the pinned block as they are and returns [false]. *)
Lemma revert_snapshot_unknown {BlockId} (s : @ForkedDatabase BlockId) (id : Z) :
  id < U256_MAX -> id_counter (snapshots s) <= U256_MAX -> get (snapshots s) id = None ->
  exists reg', revert_snapshot s id = Some (false, mkForkedDatabase (pinned s) (cache_db s) (db s) reg').
Proof.
  intros Hid Hc Hg. destruct (remove_lookup (snapshots s) id Hid Hc) as [m' [Hr _]].
  unfold get in Hg. unfold revert_snapshot. rewrite Hr, Hg. eexists. reflexivity.
Qed.

Lemma live_step_snapshots {BlockId} (E : Env BlockId) (s s' : ForkedDatabase) :
  live_step E s s' -> snapshots s' = snapshots s.
Proof.
  intros Hs; destruct Hs;
    unfold basic, code_by_hash, storage_mut, block_hash, basic_ref, code_by_hash_ref,
      storage_ref, block_hash_ref;
    repeat match goal with |- context [match ?t with _ => _ end] => destruct t end; done.
Qed.

Lemma live_steps_snapshots {BlockId} (E : Env BlockId) (s s' : ForkedDatabase) :
  rtc (live_step E) s s' -> snapshots s' = snapshots s.
Proof.
  induction 1 as [|x y z Hxy _ IH]; [done|].
  rewrite IH. apply (live_step_snapshots E _ _ Hxy).
Qed.

(** ** Claim C4 *)

(** C4: [create_snapshot] copies the overlay and the three RemoteCache
    maps and [insert_snapshot] changes nothing else; the stored snapshot
    stays the captured copy through any later commits and fetch-through
    reads on the live database. *)
Theorem snapshot_independent {BlockId} (E : Env BlockId) (s s1 s2 : ForkedDatabase) (id : Z) :
  insert_snapshot s = (id, s1) -> rtc (live_step E) s1 s2 ->
  get (snapshots s2) id = Some (create_snapshot s) /\
  local (create_snapshot s) = cache_db s /\
  snapshot (create_snapshot s) =
    mkStateSnapshot (rc_accounts (db s)) (rc_storage (db s)) (rc_block_hashes (db s)) /\
  cache_db s1 = cache_db s /\ db s1 = db s /\ pinned s1 = pinned s.
Proof.
  intros Hins Hsteps. apply live_steps_snapshots in Hsteps. rewrite Hsteps.
  unfold insert_snapshot in Hins. rewrite insert_counter in Hins.
  injection Hins as <- <-. unfold get; simpl. split; [apply lookup_insert_eq|]. done.
Qed.

Lemma snapshot_independent_witness :
  let s := forked_database_new 0 rc0 in
  let s1 := snd (insert_snapshot s) in
  let change := (7, mkAccount (mkAccountInfo 20 1 KECCAK_EMPTY None) ∅ false false) in
  let s2 := commit env0 s1 [change] in
  insert_snapshot s = (0, s1) /\ rtc (live_step env0) s1 s2 /\
  get (snapshots s2) 0 = Some (create_snapshot s).
Proof.
  intros s s1 change s2.
  assert (Hins : insert_snapshot s = (0, s1)) by reflexivity.
  assert (Hst : rtc (live_step env0) s1 s2) by (apply rtc_once; apply step_commit).
  split; [exact Hins|]. split; [exact Hst|].
  exact (proj1 (snapshot_independent env0 s s1 s2 0 Hins Hst)).
Defined.

(** ** Claim C6 *)

(** C6: when [set_pinned_block] fails, [reset] returns its error message
    and the database is the one before the call; when it succeeds, the
    overlay is a fresh [CacheDB], the RemoteCache is empty and the block
    is re-pinned. *)
Theorem reset_atomic_on_failure {BlockId} (E : Env BlockId) (s : ForkedDatabase) (b : BlockId) :
  (forall e, set_pinned_block E b = Err e -> reset E s b = (Err (pin_error_to_string e), s)) /\
  (set_pinned_block E b = Ok tt ->
   exists s', reset E s b = (Ok tt, s') /\ cache_db s' = cache_db_new /\
     db s' = mkRemoteCache ∅ ∅ ∅ /\ pinned s' = b /\ snapshots s' = snapshots s).
Proof.
  split.
  - intros e He. unfold reset. rewrite He. done.
  - intros Hok. unfold reset. rewrite Hok. eexists. done.
Qed.

Lemma reset_atomic_on_failure_witness :
  set_pinned_block env0 1 = Err (mkPinError "unknown block"%string) /\
  reset env0 (forked_database_new 0 rc0) 1 = (Err "unknown block"%string, forked_database_new 0 rc0) /\
  set_pinned_block env0 0 = Ok tt /\
  exists s', reset env0 (forked_database_new 0 rc0) 0 = (Ok tt, s') /\ db s' = mkRemoteCache ∅ ∅ ∅.
Proof.
  destruct (reset_atomic_on_failure env0 (forked_database_new 0 rc0) 1) as [Hfail _].
  destruct (reset_atomic_on_failure env0 (forked_database_new 0 rc0) 0) as [_ Hok].
  split; [reflexivity|]. split; [apply (Hfail (mkPinError "unknown block"%string)); reflexivity|].
  split; [reflexivity|].
  destruct (Hok eq_refl) as (s' & Hr & _ & Hdb & _). exists s'. split; [exact Hr|exact Hdb].
Defined.

(** ** Claim C7 *)





(** ** Claim C8 *)

(** C8 (counterexample): a storage slot read through [DatabaseRef] is
    kept in the RemoteCache without its account. The [Database] query for
    that resident slot first fetches the account and fails when that
    fetch fails, while the [DatabaseRef] query answers the cached value. *)
Lemma storage_resident_mut_ref_differ :
  let s := snd (storage_ref env_account_down (forked_database_new 0 (mkRemoteCache ∅ ∅ ∅)) 7 3) in
  rc_storage (db s) !! 7 ≫= (fun st => st !! 3) = Some 3 /\
  fst (storage_mut env_account_down s 7 3) = Err (TransportError "account fetch failed"%string) /\
  fst (storage_ref env_account_down s 7 3) = Ok 3.
Proof. vm_compute. split; [reflexivity|]. split; reflexivity. Qed.

(** C8 (corrected): the [Database] and [DatabaseRef] queries of
    [ForkedDatabase] return the same result on data resident in the
    overlay (accounts, contracts, block hashes), on accounts and block
    hashes resident in the RemoteCache, and on storage slots resident in
    the RemoteCache whose account is resident there as well. *)
Theorem query_mut_ref_agree {BlockId} (E : Env BlockId) (s : ForkedDatabase) :
  (forall a, is_Some (accounts (cache_db s) !! a) \/ is_Some (rc_accounts (db s) !! a) ->
     fst (basic E s a) = fst (basic_ref E s a)) /\
  (forall a i, is_Some (accounts (cache_db s) !! a) ->
     fst (storage_mut E s a i) = fst (storage_ref E s a i)) /\
  (forall a i, is_Some (rc_accounts (db s) !! a) ->
     is_Some (rc_storage (db s) !! a ≫= (fun st => st !! i)) ->
     fst (storage_mut E s a i) = fst (storage_ref E s a i)) /\
  (forall h, is_Some (contracts (cache_db s) !! h) ->
     fst (code_by_hash E s h) = fst (code_by_hash_ref E s h)) /\
  (forall n, is_Some (block_hashes (cache_db s) !! n) \/ is_Some (rc_block_hashes (db s) !! n) ->
     fst (block_hash E s n) = fst (block_hash_ref E s n)).
Proof.
  split; [|split; [|split; [|split]]].
  - intros a Hres. unfold basic, basic_ref, cache_db_basic, cache_db_basic_ref.
    destruct (accounts (cache_db s) !! a) as [acc|] eqn:Ha; [done|].
    destruct Hres as [[acc Hacc]|[i Hi]]; [congruence|].
    unfold sb_basic. rewrite Hi. done.
  - intros a i [acc Ha]. unfold storage_mut, storage_ref, cache_db_storage, cache_db_storage_ref.
    rewrite Ha. destruct (storage acc !! i); [done|].
    destruct (account_state acc); try done;
      destruct (sb_storage E (pinned s) (db s) a i) as [[v|e] rc']; done.
  - intros a i [ai Hai] [v Hv]. unfold storage_mut, storage_ref, cache_db_storage, cache_db_storage_ref.
    destruct (accounts (cache_db s) !! a) as [acc|] eqn:Ha.
    + destruct (storage acc !! i); [done|].
      destruct (account_state acc); try done;
        destruct (sb_storage E (pinned s) (db s) a i) as [[w|e] rc']; done.
    + unfold sb_basic, sb_storage. rewrite Hai, Hv. done.
  - intros h [b Hb]. unfold code_by_hash, code_by_hash_ref, cache_db_code_by_hash,
      cache_db_code_by_hash_ref. rewrite Hb. done.
  - intros n Hres. unfold block_hash, block_hash_ref, cache_db_block_hash,
      cache_db_block_hash_ref.
    destruct (block_hashes (cache_db s) !! n) as [h|] eqn:Hh; [done|].
    destruct Hres as [[h Hh']|[h Hr]]; [congruence|].
    unfold sb_block_hash. rewrite Hr. done.
Qed.

Lemma query_mut_ref_agree_witness :
  let s := snd (block_hash env0 (snd (basic env0 (forked_database_new 0 rc0) 7)) 5) in
  let s2 := snd (storage_ref env0 (forked_database_new 0 rc0) 7 3) in
  is_Some (accounts (cache_db s) !! 7) /\ fst (basic env0 s 7) = fst (basic_ref env0 s 7) /\
  fst (storage_mut env0 s 7 3) = fst (storage_ref env0 s 7 3) /\
  is_Some (contracts (cache_db s) !! KECCAK_EMPTY) /\
  fst (code_by_hash env0 s KECCAK_EMPTY) = fst (code_by_hash_ref env0 s KECCAK_EMPTY) /\
  is_Some (block_hashes (cache_db s) !! 5) /\
  fst (block_hash env0 s 5) = fst (block_hash_ref env0 s 5) /\
  accounts (cache_db s2) !! 7 = None /\ is_Some (rc_accounts (db s2) !! 7) /\
  is_Some (rc_storage (db s2) !! 7 ≫= (fun st => st !! 3)) /\
  fst (basic env0 s2 7) = fst (basic_ref env0 s2 7) /\
  fst (storage_mut env0 s2 7 3) = fst (storage_ref env0 s2 7 3).
Proof.
  intros s s2.
  destruct (query_mut_ref_agree env0 s) as (Hb & Hs & _ & Hc & Hh).
  destruct (query_mut_ref_agree env0 s2) as (Hb2 & _ & Hr2 & _ & _).
  assert (Ha : is_Some (accounts (cache_db s) !! 7)) by (vm_compute; eexists; reflexivity).
  assert (Hk : is_Some (contracts (cache_db s) !! KECCAK_EMPTY)) by (vm_compute; eexists; reflexivity).
  assert (Hn : is_Some (block_hashes (cache_db s) !! 5)) by (vm_compute; eexists; reflexivity).
  assert (Hc2 : accounts (cache_db s2) !! 7 = None) by (vm_compute; reflexivity).
  assert (Ha2 : is_Some (rc_accounts (db s2) !! 7)) by (vm_compute; eexists; reflexivity).
  assert (Hv2 : is_Some (rc_storage (db s2) !! 7 ≫= (fun st => st !! 3)))
    by (vm_compute; eexists; reflexivity).
  split; [exact Ha|]. split; [exact (Hb 7 (or_introl Ha))|]. split; [exact (Hs 7 3 Ha)|].
  split; [exact Hk|]. split; [exact (Hc _ Hk)|]. split; [exact Hn|].
  split; [exact (Hh 5 (or_introl Hn))|].
  split; [exact Hc2|]. split; [exact Ha2|]. split; [exact Hv2|].
  split; [exact (Hb2 7 (or_intror Ha2))|]. exact (Hr2 7 3 Ha2 Hv2).
Defined.

(** ** Claim C9 *)




(** ** Claim C10 *)

(** C10: the storage query of [ForkDbSnapshot] is the [DatabaseRef]
    storage query of its [local] overlay: the captured [snapshot.storage]
    map is never read, whatever it holds. *)
Theorem fork_db_snapshot_storage_ignores_snapshot {BlockId} (E : Env BlockId) (p : BlockId)
    (rc : RemoteCache) (l : CacheDB) (ss : StateSnapshot) (a i : Z) :
  fork_db_snapshot_storage E p rc (mkForkDbSnapshot l ss) a i = cache_db_storage_ref E p l rc a i.
Proof.
  unfold fork_db_snapshot_storage, fork_db_snapshot_get_storage, cache_db_storage_ref. simpl.
  destruct (accounts l !! a) as [acc|] eqn:Ha; simpl; [|done].
  destruct (storage acc !! i) eqn:Hi; [done|]. done.
Qed.

(** On a concrete snapshot whose [snapshot.storage] holds slot 3 of
    account 7 with value 99, the query still answers from the overlay's
    fallback chain. *)
Example fork_db_snapshot_storage_example :
  fst (fork_db_snapshot_storage env0 0 rc0
         (mkForkDbSnapshot cache_db_new (mkStateSnapshot ∅ {[7 := {[3 := 99]}]} ∅)) 7 3) = Ok 3.
Proof. vm_compute. reflexivity. Qed.

(** * Further properties of the code *)

(** ** Snapshot registry *)

(** Every stored id of [three_snapshots] is below its counter. *)
Lemma three_snapshots_ids_below : ids_below three_snapshots.
Proof.
  assert (Hm : snapshots_map three_snapshots = <[2:=tt]> (<[1:=tt]> (<[0:=tt]> ∅)))
    by (vm_compute; reflexivity).
  assert (Hc : id_counter three_snapshots = 3) by (vm_compute; reflexivity).
  intros k [v Hv]. rewrite Hc. rewrite Hm in Hv.
  rewrite !lookup_insert in Hv. repeat case_decide; subst; try lia.
  rewrite lookup_empty in Hv. done.
Qed.

(** [remove] at an id below [U256::MAX], on a registry whose stored ids
    are all below its counter, returns the snapshot stored at the id (if
    any), keeps the counter, deletes that id and every greater one, and
    keeps every smaller one. *)
Theorem remove_truncates {T} (s : Snapshots T) (id : Z) :
  id < U256_MAX -> id_counter s <= U256_MAX -> ids_below s ->
  exists s', remove s id = Some (get s id, s') /\ id_counter s' = id_counter s /\
    (forall k, id <= k -> get s' k = None) /\ (forall k, k < id -> get s' k = get s k).
Proof. apply remove_cascade. Qed.

Lemma remove_truncates_witness :
  1 < U256_MAX /\ id_counter three_snapshots <= U256_MAX /\ ids_below three_snapshots /\
  exists s', remove three_snapshots 1 = Some (get three_snapshots 1, s') /\
    id_counter s' = id_counter three_snapshots /\
    (forall k, 1 <= k -> get s' k = None) /\ (forall k, k < 1 -> get s' k = get three_snapshots k).
Proof.
  assert (H1 : 1 < U256_MAX) by (unfold U256_MAX; simpl; lia).
  assert (H2 : id_counter three_snapshots <= U256_MAX) by (vm_compute; discriminate).
  split; [exact H1|]. split; [exact H2|]. split; [exact three_snapshots_ids_below|].
  exact (remove_truncates three_snapshots 1 H1 H2 three_snapshots_ids_below).
Defined.

(** ** Snapshot round trip *)

(** Capture, any commits and fetch-through reads, then revert to the
    captured id: the revert succeeds and brings back the overlay and the
    RemoteCache of the capture. *)
Theorem insert_then_revert {BlockId} (E : Env BlockId) (s s1 s2 : ForkedDatabase) (id : Z) :
  0 <= id_counter (snapshots s) < U256_MAX -> ids_below (snapshots s) ->
  insert_snapshot s = (id, s1) -> rtc (live_step E) s1 s2 ->
  exists s3, revert_snapshot s2 id = Some (true, s3) /\
    cache_db s3 = cache_db s /\ db s3 = db s /\ pinned s3 = pinned s2.
Proof.
  intros Hc Hb Hins Hst.
  destruct (insert_snapshot_step s Hc Hb) as (Ht & Hc1 & _ & Hg & _).
  rewrite Hins in Ht, Hc1, Hg. simpl in Ht, Hc1, Hg. subst id.
  apply live_steps_snapshots in Hst.
  destruct (revert_snapshot_restores s2 (id_counter (snapshots s)) (create_snapshot s))
    as [reg' Hr]; [lia|rewrite Hst; lia|rewrite Hst; exact Hg|].
  eexists. split; [exact Hr|]. clear Hr. destruct s as [p c [ra rs rb] r]; done.
Qed.

Lemma insert_then_revert_witness :
  let s := forked_database_new 0 rc0 in
  let s1 := snd (insert_snapshot s) in
  let s2 := commit env0 s1 [(7, mkAccount (mkAccountInfo 30 2 KECCAK_EMPTY None) ∅ false false)] in
  0 <= id_counter (snapshots s) < U256_MAX /\ ids_below (snapshots s) /\
  insert_snapshot s = (0, s1) /\ rtc (live_step env0) s1 s2 /\
  exists s3, revert_snapshot s2 0 = Some (true, s3) /\ cache_db s3 = cache_db s.
Proof.
  intros s s1 s2.
  assert (Hc : 0 <= id_counter (snapshots s) < U256_MAX) by (unfold U256_MAX; simpl; lia).
  assert (Hb : ids_below (snapshots s)) by (intros k [v Hv]; done).
  assert (Hins : insert_snapshot s = (0, s1)) by reflexivity.
  assert (Hst : rtc (live_step env0) s1 s2) by (apply rtc_once; apply step_commit).
  split; [exact Hc|]. split; [exact Hb|]. split; [exact Hins|]. split; [exact Hst|].
  destruct (insert_then_revert env0 s s1 s2 0 Hc Hb Hins Hst) as (s3 & Hr & Hcd & _).
  exists s3. split; [exact Hr|exact Hcd].
Defined.

(** ** Fetch-through caching *)

(** Each mutable query of the database records what it fetched in the
    overlay (and the RemoteCache): asking the same question again on the
    resulting state gives the same answer and changes nothing. This holds
    for accounts fetched as absent ([NotExisting], whose slots then read
    0) as well. *)
Theorem fetch_through_cached {BlockId} (E : Env BlockId) (s : ForkedDatabase) :
  (forall a r s', basic E s a = (Ok r, s') -> basic E s' a = (Ok r, s')) /\
  (forall a i v s', storage_mut E s a i = (Ok v, s') -> storage_mut E s' a i = (Ok v, s')) /\
  (forall h b s', code_by_hash E s h = (Ok b, s') -> code_by_hash E s' h = (Ok b, s')) /\
  (forall n h s', block_hash E s n = (Ok h, s') -> block_hash E s' n = (Ok h, s')).
Proof.
  destruct s as [p c rc sn].
  unfold basic, storage_mut, code_by_hash, block_hash, with_cache,
    cache_db_basic, cache_db_storage, cache_db_code_by_hash, cache_db_block_hash,
    sb_basic, sb_storage, sb_block_hash, sb_code_by_hash; simpl.
  split; [|split; [|split]]; intros;
  repeat (case_match; simplify_eq/=); simplify_map_eq; try done.
Qed.

Lemma fetch_through_cached_witness :
  let s0 := forked_database_new 0 rc0 in
  let s1 := snd (storage_mut env0 s0 8 3) in
  storage_mut env0 s0 8 3 = (Ok 3, s1) /\ storage_mut env0 s1 8 3 = (Ok 3, s1).
Proof.
  intros s0 s1.
  assert (H : storage_mut env0 s0 8 3 = (Ok 3, s1)) by reflexivity.
  split; [exact H|].
  exact (proj1 (proj2 (fetch_through_cached env0 s0)) 8 3 3 s1 H).
Defined.

(** ** Commit *)

(** [insert_contract] touches only the contracts map. *)
Lemma insert_contract_accounts {BlockId} (E : Env BlockId) (c : CacheDB) (i : AccountInfo) :
  accounts (snd (insert_contract E c i)) = accounts c /\
  block_hashes (snd (insert_contract E c i)) = block_hashes c.
Proof.
  unfold insert_contract. destruct (code i) as [[|x b]|]; simpl; case_match; done.
Qed.

(** Committing one account leaves the overlay records of the other
    addresses as they were. *)
Lemma commit_account_other {BlockId} (E : Env BlockId) (c : CacheDB) (A B : Z) (acct : Account) :
  A <> B -> accounts (commit_account E c (A, acct)) !! B = accounts c !! B.
Proof.
  intros Hne. unfold commit_account. destruct (is_destroyed acct); simpl.
  - apply lookup_insert_ne. done.
  - destruct (insert_contract E c (acc_info acct)) as [i1 c1] eqn:Hic.
    pose proof (insert_contract_accounts E c (acc_info acct)) as [Ha _].
    rewrite Hic in Ha; simpl in Ha.
    repeat case_match; simpl; rewrite lookup_insert_ne by done; rewrite Ha; done.
Qed.

(** What [commit] leaves in storage for one account: a destroyed account
    reads 0 in every slot; a live account reads the present value of
    every slot it committed; a live account committed with
    [storage_cleared] reads 0 in every slot it did not commit. All three
    answers come from the overlay, without a fetch. *)
Theorem commit_storage_reads {BlockId} (E : Env BlockId) (s : ForkedDatabase) (A : Z) (acct : Account) :
  let s' := commit E s [(A, acct)] in
  (is_destroyed acct = true -> forall i, storage_mut E s' A i = (Ok 0, s')) /\
  (is_destroyed acct = false -> forall i sv, acc_storage acct !! i = Some sv ->
     storage_mut E s' A i = (Ok (present_value sv), s')) /\
  (is_destroyed acct = false -> storage_cleared acct = true -> forall i, acc_storage acct !! i = None ->
     storage_mut E s' A i = (Ok 0, s')).
Proof.
  cbv zeta. unfold commit, cache_db_commit, storage_mut, cache_db_storage, with_cache. simpl.
  split; [|split].
  - intros Hd i. unfold commit_account. rewrite Hd. simpl. rewrite lookup_insert_eq. simpl. done.
  - intros Hd i sv Hi. unfold commit_account. rewrite Hd.
    destruct (insert_contract E (cache_db s) (acc_info acct)) as [i1 c1].
    repeat case_match; simplify_eq/=; rewrite lookup_insert_eq in *; simplify_eq/=;
    unfold map_extend in *; rewrite lookup_union_l' in * by (rewrite lookup_fmap, Hi; done);
    rewrite lookup_fmap, Hi in *; simplify_eq/=; done.
  - intros Hd Hc i Hi. unfold commit_account. rewrite Hd, Hc.
    destruct (insert_contract E (cache_db s) (acc_info acct)) as [i1 c1].
    simpl. rewrite lookup_insert_eq. simpl. unfold map_extend, map_clear.
    rewrite lookup_union, lookup_fmap, Hi, lookup_empty. simpl. done.
Qed.

Lemma commit_storage_reads_witness :
  let acct := mkAccount (mkAccountInfo 30 2 KECCAK_EMPTY None) {[1 := mkStorageSlot 0 5]} true false in
  let s' := commit env0 (forked_database_new 0 rc0) [(7, acct)] in
  is_destroyed acct = false /\ storage_cleared acct = true /\
  storage_mut env0 s' 7 1 = (Ok 5, s') /\ storage_mut env0 s' 7 2 = (Ok 0, s').
Proof.
  intros acct s'.
  destruct (commit_storage_reads env0 (forked_database_new 0 rc0) 7 acct) as (_ & H2 & H3).
  split; [reflexivity|]. split; [reflexivity|]. split.
  - exact (H2 eq_refl 1 (mkStorageSlot 0 5) eq_refl).
  - exact (H3 eq_refl eq_refl 2 eq_refl).
Defined.


(** [commit] changes nothing for an address outside the changes: its
    overlay record, and the answers of the account and storage queries
    for it, are those of the database before the commit. *)
Theorem commit_other_addresses {BlockId} (E : Env BlockId) (s : ForkedDatabase)
    (changes : list (Z * Account)) (B : Z) :
  B ∉ map fst changes ->
  accounts (cache_db (commit E s changes)) !! B = accounts (cache_db s) !! B /\
  fst (basic E (commit E s changes) B) = fst (basic E s B) /\
  (forall i, fst (storage_mut E (commit E s changes) B i) = fst (storage_mut E s B i)).
Proof.
  intros Hn.
  assert (Hl : accounts (cache_db (commit E s changes)) !! B = accounts (cache_db s) !! B).
  { unfold commit, cache_db_commit; simpl. generalize (cache_db s) as c.
    induction changes as [|[A acct] l IH]; intros c; [done|]. simpl in *.
    rewrite IH by set_solver. apply commit_account_other. set_solver. }
  assert (Hp : pinned (commit E s changes) = pinned s) by reflexivity.
  assert (Hd : db (commit E s changes) = db s) by reflexivity.
  generalize dependent (commit E s changes). intros s' Hl Hp Hd.
  split; [exact Hl|]. split.
  - unfold basic, cache_db_basic. rewrite Hl, Hp, Hd.
    destruct (accounts (cache_db s) !! B); [done|].
    destruct (sb_basic E _ _ B) as [[r|e] rc']; done.
  - intros i. unfold storage_mut, cache_db_storage. rewrite Hl, Hp, Hd.
    repeat case_match; simplify_eq/=; done.
Qed.

Lemma commit_other_addresses_witness :
  let acct := mkAccount (mkAccountInfo 30 2 KECCAK_EMPTY None) ∅ false true in
  let s := snd (basic env0 (forked_database_new 0 rc0) 7) in
  (7 ∉ map fst [(9, acct)]) /\
  fst (basic env0 (commit env0 s [(9, acct)]) 7) = fst (basic env0 s 7).
Proof.
  intros acct s.
  assert (Hn : 7 ∉ map fst [(9, acct)]) by (simpl; intros Hin; apply list_elem_of_singleton in Hin; lia).
  split; [exact Hn|]. exact (proj1 (proj2 (commit_other_addresses env0 s [(9, acct)] 7 Hn))).
Defined.

(** ** Reset *)


(** After a successful [reset] to block [b] the database is pinned at [b],
    keeps its snapshot registry, and answers account and storage queries
    from the backend at [b]: the overlay and RemoteCache data of the old
    block are gone. *)
Theorem reset_then_fetch {BlockId} (E : Env BlockId) (s s' : ForkedDatabase) (b : BlockId) :
  reset E s b = (Ok tt, s') ->
  pinned s' = b /\ snapshots s' = snapshots s /\
  (forall a, fst (basic E s' a) =
     match get_account E b a with Ok i => Ok (Some i) | Err e => Err e end) /\
  (forall a i, fst (storage_mut E s' a i) =
     match get_account E b a with Ok _ => get_storage E b a i | Err e => Err e end).
Proof.
  unfold reset. destruct (set_pinned_block E b) as [[]|e]; intros H; simplify_eq/=.
  split; [done|]. split; [done|]. split.
  - intros a. unfold basic, cache_db_basic, sb_basic, map_clear.
    cbn [pinned cache_db db rc_accounts remote_cache_clear accounts cache_db_new].
    rewrite !lookup_empty. destruct (get_account E b a); done.
  - intros a i. unfold storage_mut, cache_db_storage, sb_basic, sb_storage, map_clear.
    cbn [pinned cache_db db rc_accounts rc_storage remote_cache_clear accounts cache_db_new].
    rewrite !lookup_empty. destruct (get_account E b a); cbn [rc_storage].
    2: done. rewrite ?lookup_empty. cbn. destruct (get_storage E b a i); done.
Qed.

Lemma reset_then_fetch_witness :
  let s := commit env0 (forked_database_new 0 rc0)
             [(7, mkAccount (mkAccountInfo 30 2 KECCAK_EMPTY None) ∅ false false)] in
  reset env0 s 0 = (Ok tt, snd (reset env0 s 0)) /\
  fst (basic env0 (snd (reset env0 s 0)) 7) = Ok (Some (mkAccountInfo 7 0 KECCAK_EMPTY None)).
Proof.
  intros s.
  assert (H : reset env0 s 0 = (Ok tt, snd (reset env0 s 0))) by reflexivity.
  split; [exact H|].
  exact (proj1 (proj2 (proj2 (reset_then_fetch env0 s (snd (reset env0 s 0)) 0 H))) 7).
Defined.

(** ** BTreeMap iteration and [get_from_txs] *)

(** [keys()] visits exactly the keys of the map. *)
Lemma btree_keys_elem {V} (m : gmap Z V) (k : Z) : k ∈ btree_keys m <-> is_Some (m !! k).
Proof.
  unfold btree_keys. rewrite <- (ZSort.Permuted_sort (elements (dom m))).
  rewrite elem_of_elements, elem_of_dom. done.
Qed.

(** [keys()] visits each key once. *)
Lemma btree_keys_NoDup {V} (m : gmap Z V) : NoDup (btree_keys m).
Proof.
  unfold btree_keys. rewrite <- (ZSort.Permuted_sort (elements (dom m))). apply NoDup_elements.
Qed.

(** Looking a key up in the entries built from a key list. *)
Lemma assoc_lookup_omap {V} (m : gmap Z V) (k : Z) (ks : list Z) :
  assoc_lookup k (omap (fun k => pair k <$> m !! k) ks) = if bool_decide (k ∈ ks) then m !! k else None.
Proof.
  induction ks as [|k' ks IH]; [done|].
  change (omap ?f (k' :: ks)) with (match f k' with Some y => y :: omap f ks | None => omap f ks end).
  cbv beta. destruct (m !! k') as [v|] eqn:Hk'; simpl.
  - destruct (Z.eqb_spec k' k) as [->|Hne].
    + rewrite bool_decide_true by (constructor). done.
    + rewrite IH. assert (Hiff : k ∈ k' :: ks <-> k ∈ ks) by (rewrite elem_of_cons; naive_solver).
      rewrite (bool_decide_ext _ _ Hiff). done.
  - rewrite IH. destruct (decide (k = k')) as [->|Hne].
    + rewrite Hk'. repeat case_bool_decide; done.
    + assert (Hiff : k ∈ k' :: ks <-> k ∈ ks) by (rewrite elem_of_cons; naive_solver).
      rewrite (bool_decide_ext _ _ Hiff). done.
Qed.

(** The first entry of [iter()] for a key holds the map's value. *)
Lemma assoc_lookup_btree_entries {V} (m : gmap Z V) (k : Z) :
  assoc_lookup k (btree_entries m) = m !! k.
Proof.
  unfold btree_entries. rewrite assoc_lookup_omap. case_bool_decide as Hk; [done|].
  destruct (m !! k) eqn:Hm; [|done]. exfalso. apply Hk, btree_keys_elem. rewrite Hm. done.
Qed.

(** [iter()] visits the keys of [keys()], in that order. *)
Lemma map_fst_btree_entries {V} (m : gmap Z V) : map fst (btree_entries m) = btree_keys m.
Proof.
  unfold btree_entries.
  assert (Hall : forall k, k ∈ btree_keys m -> is_Some (m !! k)) by (intros k; apply btree_keys_elem).
  induction (btree_keys m) as [|k ks IH]; [done|]. simpl.
  destruct (Hall k ltac:(constructor)) as [v Hv]. rewrite Hv. simpl. f_equal.
  apply IH. intros k' Hk'. apply Hall. constructor. done.
Qed.

(** [iter()] visits exactly the bindings of the map. *)
Lemma btree_entries_elem {V} (m : gmap Z V) (k : Z) (v : V) :
  (k, v) ∈ btree_entries m <-> m !! k = Some v.
Proof.
  unfold btree_entries. rewrite list_elem_of_omap. split.
  - intros (k' & Hk' & Hv). destruct (m !! k') eqn:Hm; simpl in Hv; simplify_eq. done.
  - intros Hm. exists k. rewrite Hm. split; [|done]. apply btree_keys_elem. rewrite Hm. done.
Qed.

(** [iter()] visits each key once. *)
Lemma btree_entries_NoDup {V} (m : gmap Z V) : NoDup (map fst (btree_entries m)).
Proof. rewrite map_fst_btree_entries. apply btree_keys_NoDup. Qed.

(** Lookup in an appended association list. *)
Lemma assoc_lookup_app {V} (k : Z) (l1 l2 : list (Z * V)) :
  assoc_lookup k (l1 ++ l2) = match assoc_lookup k l1 with Some v => Some v | None => assoc_lookup k l2 end.
Proof. induction l1 as [|[k' v] l1 IH]; simpl; [done|]. destruct (k' =? k); done. Qed.

(** The merge loop of [get_from_txs] keeps a bound address and binds a
    free one to its first entry. *)
Lemma merge_fold_lookup (l : list (Z * AccountDiff)) (acc : gmap Z AccountDiff) (a : Z) :
  fold_left (fun merged '(address, account_diff) =>
       match merged !! address with
       | None => <[address := account_diff]> merged
       | Some _ => merged
       end) l acc !! a =
  match acc !! a with Some d => Some d | None => assoc_lookup a l end.
Proof.
  revert acc. induction l as [|[k d] l IH]; intros acc; simpl; [destruct (acc !! a); done|].
  rewrite IH. destruct (Z.eqb_spec k a) as [->|Hne].
  - destruct (acc !! a) eqn:Ha; [rewrite Ha; done|]. rewrite lookup_insert_eq. done.
  - destruct (acc !! k); [done|]. rewrite lookup_insert_ne by done. done.
Qed.

(** [get_from_txs] answers [None] exactly when the trace call fails;
    otherwise the merged map binds each address to its diff in the first
    trace whose state diff holds it, and traces without a state diff
    contribute nothing. *)
Theorem get_from_txs_first_wins :
  (forall e, get_from_txs (Err e) = None) /\
  (forall traces, exists merged, get_from_txs (Ok traces) = Some merged /\
     forall a, merged !! a = first_state_diff traces a).
Proof.
  split; [done|]. intros traces. eexists. split; [reflexivity|]. intros a.
  unfold merge_state_diffs. rewrite merge_fold_lookup, lookup_empty.
  induction traces as [|bt rest IH]; [done|]. simpl.
  rewrite assoc_lookup_app, IH.
  destruct (bt_state_diff bt) as [sd|]; simpl; [|done].
  rewrite assoc_lookup_btree_entries. done.
Qed.

(** ** Pool extraction *)

(** The loop of [extract_sandwich_pools] in closed form. *)
Lemma sandwich_loop_spec {RustyPool} (to_rp : Pool -> RustyPool) mapping_key w pools :
  sandwich_loop to_rp mapping_key w pools =
  if forallb (fun pool => bool_decide (is_Some (w !! mapping_key (pool_address pool) 3))) pools
  then Some (omap (fun pool => match w !! mapping_key (pool_address pool) 3 with
                               | Some (Changed from to) => Some (mkTradablePool (to_rp pool) (from <? to))
                               | _ => None
                               end) pools)
  else None.
Proof.
  induction pools as [|pool rest IH]; [done|].
  change (omap ?f (pool :: rest)) with (match f pool with Some y => y :: omap f rest | None => omap f rest end).
  cbn [sandwich_loop forallb]. cbv beta.
  destruct (w !! mapping_key (pool_address pool) 3) as [d|]; simpl; [|done].
  rewrite IH. destruct (forallb _ rest); destruct d; done.
Qed.

(** [extract_sandwich_pools] answers [None] when WETH has no state diff,
    and also when some touched pool has no diff for its WETH [balanceOf]
    slot (mapping slot 3). Otherwise it lists, in the order of the touched
    pools, one [TradablePool] for each touched pool whose WETH balance
    changed, with [is_weth_input] set when the balance went up. The other
    pools are skipped. *)
Theorem extract_sandwich_pools_spec {RustyPool} (to_rp : Pool -> RustyPool) mapping_key sd ap :
  extract_sandwich_pools to_rp mapping_key sd ap =
  match sd !! WETH_ADDRESS with
  | None => None
  | Some weth =>
      let key pool := mapping_key (pool_address pool) 3 in
      if forallb (fun pool => bool_decide (is_Some (ad_storage weth !! key pool))) (touched_pools sd ap)
      then Some (omap (fun pool => match ad_storage weth !! key pool with
                                   | Some (Changed from to) => Some (mkTradablePool (to_rp pool) (from <? to))
                                   | _ => None
                                   end) (touched_pools sd ap))
      else None
  end.
Proof.
  unfold extract_sandwich_pools. destruct (sd !! WETH_ADDRESS); [|done]. apply sandwich_loop_spec.
Qed.

(** The loop of [extract_arb_pools] only pushes well-formed entries. *)
Lemma arb_loop_entries mapping_key slot_finder pair_hash sd hp touched pools b0 b1 r0 r1 :
  (forall p, p ∈ pools -> p ∈ touched) ->
  Forall (arb_entry mapping_key slot_finder pair_hash sd hp touched true) b0 ->
  Forall (arb_entry mapping_key slot_finder pair_hash sd hp touched false) b1 ->
  arb_loop mapping_key slot_finder pair_hash sd hp pools b0 b1 = Some (r0, r1) ->
  Forall (arb_entry mapping_key slot_finder pair_hash sd hp touched true) r0 /\
  Forall (arb_entry mapping_key slot_finder pair_hash sd hp touched false) r1.
Proof.
  revert b0 b1. induction pools as [|pool rest IH]; intros b0 b1 Hin H0 H1 Hr; simpl in Hr.
  - simplify_eq. done.
  - destruct (sd !! token_0 pool) as [d0|] eqn:Hd0; [|done].
    destruct (slot_finder (token_0 pool) (pool_address pool)) as [slot|] eqn:Hs; [|simplify_eq; done].
    destruct (ad_storage d0 !! mapping_key (pool_address pool) slot) as [[| | |from to]|] eqn:Hk;
      try (simplify_eq; done).
    destruct (hp !! pair_hash (token_0 pool) (token_1 pool)) as [hps|] eqn:Hh; [|done].
    assert (Hp : pool ∈ touched) by (apply Hin; constructor).
    assert (Hrest : forall p, p ∈ rest -> p ∈ touched) by (intros p Hp'; apply Hin; constructor; done).
    assert (He : forall up, (from <? to) = up ->
      arb_entry mapping_key slot_finder pair_hash sd hp touched up
        [(pool, List.filter (fun p => negb (pool_address p =? pool_address pool)) hps)]).
    { intros up Hup. exists pool, slot, from, to, hps. rewrite Hd0. simpl. rewrite Hk. done. }
    destruct (from <? to) eqn:Hlt.
    + apply (IH _ _ Hrest) in Hr; [done| |done]. apply Forall_app. split; [done|]. constructor; [apply He; done|done].
    + apply (IH _ _ Hrest) in Hr; [done|done|]. apply Forall_app. split; [done|]. constructor; [apply He; done|done].
Qed.

(** Every map pushed by [extract_arb_pools] holds one touched pool. The
    pool's [token0] balance slot was found by [slot_finder], and its
    storage diff is [Changed]: upwards for the buy-0 list, not upwards for
    the buy-1 list. The pool is mapped to the pools of its token pair in
    [hash_pools] other than itself. *)
Theorem extract_arb_pools_entries mapping_key slot_finder pair_hash sd ap hp b0 b1 :
  extract_arb_pools mapping_key slot_finder pair_hash sd ap hp = Some (b0, b1) ->
  Forall (arb_entry mapping_key slot_finder pair_hash sd hp (touched_pools sd ap) true) b0 /\
  Forall (arb_entry mapping_key slot_finder pair_hash sd hp (touched_pools sd ap) false) b1.
Proof.
  unfold extract_arb_pools. intros H. eapply arb_loop_entries; [| | |exact H]; done.
Qed.

(** ** [to_cache_db] *)

(** The loop of [to_cache_db] succeeds only if every fetch succeeded. *)
Lemma to_cache_db_loop_fetches {BlockId} (E : Env BlockId) gtc gb gc completed c c' :
  to_cache_db_loop E gtc gb gc completed c = Some (Ok c') ->
  Forall (fun '(a, _) => exists nonce bal code,
            fetch_account_state gtc gb gc a = Ok (nonce, bal, code) /\ nonce <= U64_MAX) completed.
Proof.
  revert c. induction completed as [|[a d] rest IH]; intros c H; [constructor|]. simpl in H.
  destruct (fetch_account_state gtc gb gc a) as [[[n b] code]|e] eqn:Hf; [|done].
  destruct (Z.leb_spec n U64_MAX); [|done].
  constructor; [exists n, b, code; done|]. eapply IH. exact H.
Qed.

(** [insert_account_storage] changes one account record only. *)
Lemma insert_account_storage_other (c : CacheDB) (a a' slot v : Z) :
  a' <> a -> accounts (insert_account_storage c a' slot v) !! a = accounts c !! a.
Proof. intros Hne. unfold insert_account_storage. simpl. apply lookup_insert_ne. done. Qed.

(** So does the storage loop of [to_cache_db]. *)
Lemma insert_diff_storage_other (c : CacheDB) (a a' : Z) (st : gmap Z (Diff Z)) :
  a' <> a -> accounts (insert_diff_storage c a' st) !! a = accounts c !! a.
Proof.
  intros Hne. unfold insert_diff_storage. generalize (btree_entries st) as l. intros l.
  revert c. induction l as [|[slot d] l IH]; intros c; [done|]. simpl. rewrite IH.
  destruct d; try done; apply insert_account_storage_other; done.
Qed.

(** So does [insert_account_info]. *)
Lemma insert_account_info_other {BlockId} (E : Env BlockId) (c : CacheDB) (a a' : Z) (i : AccountInfo) :
  a' <> a -> accounts (insert_account_info E c a' i) !! a = accounts c !! a.
Proof.
  intros Hne. unfold insert_account_info.
  pose proof (insert_contract_accounts E c i) as [Ha _].
  destruct (insert_contract E c i) as [i' c1]. simpl in *.
  rewrite lookup_insert_ne by done. rewrite Ha. done.
Qed.

(** [insert_contract] keeps the balance, the nonce and the code. *)
Lemma insert_contract_fields {BlockId} (E : Env BlockId) (c : CacheDB) (i : AccountInfo) :
  balance (fst (insert_contract E c i)) = balance i /\ nonce (fst (insert_contract E c i)) = nonce i /\
  code (fst (insert_contract E c i)) = code i.
Proof.
  unfold insert_contract. destruct (code i) as [[|x b]|] eqn:Hc; simpl;
    destruct (_ =? 0); simpl; rewrite ?Hc; done.
Qed.

(** [insert_account_info] on a fresh address creates a default record. *)
Lemma insert_account_info_fresh {BlockId} (E : Env BlockId) (c : CacheDB) (a : Z) (i : AccountInfo) :
  accounts c !! a = None ->
  accounts (insert_account_info E c a i) !! a = Some (mkDbAccount (fst (insert_contract E c i)) AS_None ∅).
Proof.
  intros Hn. unfold insert_account_info.
  pose proof (insert_contract_accounts E c i) as [Ha _].
  destruct (insert_contract E c i) as [i' c1]. simpl in *.
  rewrite lookup_insert_eq, Ha, Hn. done.
Qed.

(** The storage loop of [to_cache_db] over a list of slots with no
    repeated slot. *)
Lemma insert_diff_storage_fold (a : Z) (l : list (Z * Diff Z)) (c : CacheDB) (acc : DbAccount) :
  NoDup (map fst l) -> accounts c !! a = Some acc ->
  exists acc', accounts (fold_left
    (fun c '(slot, storage_diff) =>
       match storage_diff with
       | Changed from _ => insert_account_storage c a slot from
       | Died v => insert_account_storage c a slot v
       | _ => c
       end) l c) !! a = Some acc' /\
    info acc' = info acc /\ account_state acc' = account_state acc /\
    forall slot, storage acc' !! slot =
      match diff_slot_value (assoc_lookup slot l) with Some v => Some v | None => storage acc !! slot end.
Proof.
  revert c acc. induction l as [|[k d] l IH]; intros c acc Hnd Ha.
  - exists acc. done.
  - simpl in Hnd. apply NoDup_cons in Hnd as [Hk Hnd].
    assert (Hnone : assoc_lookup k l = None).
    { clear -Hk. induction l as [|[k' v] l IH]; [done|]. simpl in *.
      destruct (Z.eqb_spec k' k); [subst; set_solver|]. apply IH. set_solver. }
    assert (Hstep : forall v, exists acc', accounts (insert_account_storage c a k v) !! a = Some acc' /\
              info acc' = info acc /\ account_state acc' = account_state acc /\
              storage acc' = <[k := v]> (storage acc)).
    { intros v. unfold insert_account_storage. simpl. rewrite lookup_insert_eq, Ha. simpl. eexists. done. }
    simpl. destruct d as [|v|v|from to];
      [ destruct (IH c acc Hnd Ha) as (acc' & H1 & H2 & H3 & H4)
      | destruct (IH c acc Hnd Ha) as (acc' & H1 & H2 & H3 & H4)
      | destruct (Hstep v) as (acc1 & Ha1 & Hi1 & Hs1 & Hst1);
        destruct (IH _ acc1 Hnd Ha1) as (acc' & H1 & H2 & H3 & H4)
      | destruct (Hstep from) as (acc1 & Ha1 & Hi1 & Hs1 & Hst1);
        destruct (IH _ acc1 Hnd Ha1) as (acc' & H1 & H2 & H3 & H4) ];
      exists acc'; (split; [exact H1|]); (split; [congruence|]); (split; [congruence|]);
      intros slot; rewrite H4; destruct (Z.eqb_spec k slot) as [->|Hne]; simpl;
      try (rewrite Hnone; simpl); try rewrite Hst1; rewrite ?lookup_insert_eq; try done;
      rewrite ?lookup_insert_ne by done; done.
Qed.

(** The loop of [to_cache_db] leaves alone an address it does not visit. *)
Lemma to_cache_db_loop_other {BlockId} (E : Env BlockId) gtc gb gc completed c c' a :
  a ∉ map fst completed -> to_cache_db_loop E gtc gb gc completed c = Some (Ok c') ->
  accounts c' !! a = accounts c !! a.
Proof.
  revert c. induction completed as [|[a' d] rest IH]; intros c Hn H; simpl in H.
  - simplify_eq. done.
  - destruct (fetch_account_state gtc gb gc a') as [[[n b] code]|e]; [|done].
    destruct (n <=? U64_MAX); [|done].
    simpl in Hn. apply not_elem_of_cons in Hn as [Hne Hn].
    rewrite (IH _ Hn H). rewrite insert_diff_storage_other by congruence.
    apply insert_account_info_other. congruence.
Qed.

(** The record the loop of [to_cache_db] builds for an address it visits. *)
Lemma to_cache_db_loop_account {BlockId} (E : Env BlockId) gtc gb gc completed c c' a d n b bc :
  NoDup (map fst completed) -> (forall a', a' ∈ map fst completed -> accounts c !! a' = None) ->
  to_cache_db_loop E gtc gb gc completed c = Some (Ok c') ->
  (a, d) ∈ completed -> fetch_account_state gtc gb gc a = Ok (n, b, bc) ->
  exists dba, accounts c' !! a = Some dba /\
    balance (info dba) = b /\ nonce (info dba) = n /\ code (info dba) = Some bc /\
    forall slot, storage dba !! slot = diff_slot_value (ad_storage d !! slot).
Proof.
  revert c. induction completed as [|[a' d'] rest IH]; intros c Hnd Hfresh H Hin Hf;
    [apply elem_of_nil in Hin; done|].
  simpl in H, Hnd. apply NoDup_cons in Hnd as [Hnotin Hnd].
  destruct (fetch_account_state gtc gb gc a') as [[[n' b'] code']|e] eqn:Hf'; [|done].
  destruct (n' <=? U64_MAX); [|done].
  apply elem_of_cons in Hin as [Heq|Hin].
  - injection Heq as <- <-. rewrite Hf in Hf'. injection Hf' as <- <- <-.
    rewrite (to_cache_db_loop_other E gtc gb gc rest _ _ a Hnotin H).
    assert (Hc : accounts c !! a = None) by (apply Hfresh; constructor).
    pose proof (insert_account_info_fresh E c a (account_info_new E b n bc) Hc) as Hi.
    pose proof (insert_contract_fields E c (account_info_new E b n bc)) as (Hb & Hn & Hcd).
    destruct (insert_diff_storage_fold a (btree_entries (ad_storage d)) _ _ (btree_entries_NoDup _) Hi)
      as (acc' & H1 & H2 & _ & H4).
    exists acc'. unfold insert_diff_storage. split; [exact H1|].
    rewrite H2. simpl. split; [exact Hb|]. split; [exact Hn|]. split; [exact Hcd|].
    intros slot. rewrite H4, assoc_lookup_btree_entries. cbn [storage]. rewrite lookup_empty.
    destruct (ad_storage d !! slot) as [[| | |]|]; done.
  - refine (IH _ Hnd _ H Hin Hf).
    intros a'' Ha''. assert (Hne : a' <> a'') by (intros ->; done).
    rewrite insert_diff_storage_other by done. rewrite insert_account_info_other by done.
    apply Hfresh. constructor. done.
Qed.

(** In whatever order the futures complete, when [to_cache_db] succeeds,
    every address of the state diff has an account record with the
    fetched balance, nonce and code. Each of its storage slots holds the
    [from] value of a [Changed] diff or the value of a [Died] diff. A slot
    that is [Born] or [Same] in the diff is not stored. *)
Theorem to_cache_db_contents {BlockId} (E : Env BlockId) gtc gb gc (state : gmap Z AccountDiff)
    completed c a d n b bc :
  completed ≡ₚ btree_entries state ->
  to_cache_db E gtc gb gc completed = Some (Ok c) ->
  state !! a = Some d -> fetch_account_state gtc gb gc a = Ok (n, b, bc) ->
  exists dba, accounts c !! a = Some dba /\
    balance (info dba) = b /\ nonce (info dba) = n /\ code (info dba) = Some bc /\
    forall slot, storage dba !! slot = diff_slot_value (ad_storage d !! slot).
Proof.
  intros Hp H Hs Hf. eapply to_cache_db_loop_account; [| |exact H| |exact Hf].
  - rewrite Hp. apply btree_entries_NoDup.
  - intros a' _. apply lookup_empty.
  - rewrite Hp. apply btree_entries_elem. exact Hs.
Qed.

(** [to_cache_db] builds a database only when all three provider calls
    succeeded for every address and every nonce fits in a [u64]; a failed
    call or a larger nonce means that no database is built. *)
Theorem to_cache_db_fetches {BlockId} (E : Env BlockId) gtc gb gc completed c :
  to_cache_db E gtc gb gc completed = Some (Ok c) ->
  Forall (fun '(a, _) => exists nonce bal code,
            fetch_account_state gtc gb gc a = Ok (nonce, bal, code) /\ nonce <= U64_MAX) completed.
Proof. apply to_cache_db_loop_fetches. Qed.

Lemma to_cache_db_fetches_witness :
  let completed := [(5, mkAccountDiff Same Same Same ∅)] in
  let gtc := fun _ : Z => @Ok Z ProviderError 3 in
  let gb := fun _ : Z => @Ok Z ProviderError 100 in
  let gc := fun _ : Z => @Ok Bytecode ProviderError [1; 2] in
  let c := match to_cache_db env0 gtc gb gc completed with Some (Ok c) => c | _ => cache_db_new end in
  to_cache_db env0 gtc gb gc completed = Some (Ok c) /\
  Forall (fun '(a, _) => exists nonce bal code,
            fetch_account_state gtc gb gc a = Ok (nonce, bal, code) /\ nonce <= U64_MAX) completed.
Proof.
  intros completed gtc gb gc c.
  assert (H : to_cache_db env0 gtc gb gc completed = Some (Ok c)) by (vm_compute; reflexivity).
  split; [exact H|]. exact (to_cache_db_fetches env0 gtc gb gc completed c H).
Defined.

Lemma to_cache_db_contents_witness :
  let state := {[5 := mkAccountDiff Same Same Same {[1 := Changed 7 9; 2 := Born 4]}]} in
  let gtc := fun _ : Z => @Ok Z ProviderError 3 in
  let gb := fun _ : Z => @Ok Z ProviderError 100 in
  let gc := fun _ : Z => @Ok Bytecode ProviderError [1; 2] in
  let c := match to_cache_db env0 gtc gb gc (btree_entries state) with
           | Some (Ok c) => c | _ => cache_db_new end in
  to_cache_db env0 gtc gb gc (btree_entries state) = Some (Ok c) /\
  exists dba, accounts c !! 5 = Some dba /\ balance (info dba) = 100 /\ nonce (info dba) = 3 /\
    code (info dba) = Some [1; 2] /\
    forall slot, storage dba !! slot = diff_slot_value (({[1 := Changed 7 9; 2 := Born 4]} : gmap Z (Diff Z)) !! slot).
Proof.
  intros state gtc gb gc c.
  assert (H : to_cache_db env0 gtc gb gc (btree_entries state) = Some (Ok c)) by (vm_compute; reflexivity).
  split; [exact H|].
  exact (to_cache_db_contents env0 gtc gb gc state (btree_entries state) c 5 _ 3 100 [1; 2]
           (reflexivity _) H eq_refl eq_refl).
Defined.

Lemma extract_arb_pools_entries_witness :
  let mk := fun a s : Z => a + s in
  let sf := fun _ _ : Z => Some 0 in
  let ph := fun a b : Z => a + b in
  let pool := mkPool 100 200 300 in
  let sd := {[100 := mkAccountDiff Same Same Same ∅;
              200 := mkAccountDiff Same Same Same {[100 := Changed 1 5]}]} in
  let ap := {[100 := pool]} in
  let hp := {[500 := [pool; mkPool 101 200 300]]} in
  extract_arb_pools mk sf ph sd ap hp = Some ([[(pool, [mkPool 101 200 300])]], []) /\
  Forall (arb_entry mk sf ph sd hp (touched_pools sd ap) true) [[(pool, [mkPool 101 200 300])]].
Proof.
  intros mk sf ph pool sd ap hp.
  assert (H : extract_arb_pools mk sf ph sd ap hp = Some ([[(pool, [mkPool 101 200 300])]], []))
    by (vm_compute; reflexivity).
  split; [exact H|]. exact (proj1 (extract_arb_pools_entries mk sf ph sd ap hp _ _ H)).
Defined.
